(** * Retrieval handler: response extraction, retrieval and insight fan-out

    A shallow embedding of [backend/retrieval_handler.py].

    Python values are modelled by the inductive type [value]; a [str] is the
    list of its code points; the fragments of the [re] and [json] modules the
    handler calls are written out as executable functions; calls to the
    embedding service, the vector store, the reranker and the generation
    model are events of a small interaction type [io], answered by a
    [world].

    Around the handler: the [bounding_box] entry the indexing pipeline
    stores ([backend/indexing_pipeline.py]) and the turns the audio endpoint
    builds ([backend/app.py]). *)

From Stdlib Require Import List String Ascii NArith ZArith QArith Bool Arith Lia.
From Stdlib Require Import Permutation Sorted.
From Stdlib Require DecimalPos.
Import ListNotations.

Set Implicit Arguments.
Set Warnings "-register-all".
Local Open Scope N_scope.

(* ================================================================== *)
(** * Strings *)

(** A Python [str]: the sequence of its Unicode code points. *)
Definition pystr : Type := list N.

(** An ASCII literal as a [str]. *)
Definition str (s : string) : pystr :=
  map N_of_ascii (list_ascii_of_string s).

(** A literal in which the apostrophe stands for the double quote:
    in [dq "{'a': 1}"] the key [a] is enclosed in double quotes. *)
Definition dq (s : string) : pystr :=
  map (fun c => if c =? 39 then 34 else c) (str s).

Fixpoint str_eqb (a b : pystr) : bool :=
  match a, b with
  | [], [] => true
  | x :: a', y :: b' => (x =? y) && str_eqb a' b'
  | _, _ => false
  end.

Definition in_range (lo hi c : N) : bool := (lo <=? c) && (c <=? hi).

(** [str.isspace] on one code point, which is also what [\s] matches in a
    [str] pattern. *)
Definition isspace (c : N) : bool :=
  in_range 9 13 c || in_range 28 32 c || (c =? 133) || (c =? 160)
  || (c =? 5760) || in_range 8192 8202 c || (c =? 8232) || (c =? 8233)
  || (c =? 8239) || (c =? 8287) || (c =? 12288).

(** First code points of the runs of ten decimal digits of Unicode. *)
Definition decimal_zeros : list N :=
  [ 48; 1632; 1776; 1984; 2406; 2534; 2662; 2790; 2918; 3046; 3174; 3302;
    3430; 3558; 3664; 3792; 3872; 4160; 4240; 6112; 6160; 6470; 6608; 6784;
    6800; 6992; 7088; 7232; 7248; 42528; 43216; 43264; 43472; 43504; 43600;
    44016; 65296; 66720; 68912; 69734; 69872; 69942; 70096; 70384; 70736;
    70864; 71248; 71360; 71472; 71904; 72016; 72784; 73040; 73120; 92768;
    92864; 93008; 123200; 123632; 125264; 130032 ].

(** [str.isdecimal] on one code point, which is what [\d] matches in a [str]
    pattern: the runs above and the mathematical digits U+1D7CE..U+1D7FF. *)
Definition isdecimal (c : N) : bool :=
  existsb (fun z => in_range z (z + 9) c) decimal_zeros
  || in_range 120782 120831 c.

Definition is_ascii_digit (c : N) : bool := in_range 48 57 c.

Fixpoint lstrip (s : pystr) : pystr :=
  match s with
  | c :: s' => if isspace c then lstrip s' else s
  | [] => []
  end.

(** [s.strip()] *)
Definition strip (s : pystr) : pystr := rev (lstrip (rev (lstrip s))).

(* ================================================================== *)
(** * The fragment of [re] the handler uses

    Every pattern of the handler is a sequence of single-character classes,
    each taken once, or under a greedy [+] or [*], with at most one capture
    group around consecutive items. *)

Inductive quant : Type := One | Plus | Star.

Record atom : Type := Atom {
  cls : N -> bool;      (* the character class *)
  qnt : quant;          (* how many times *)
  grp : bool            (* inside the capture group *)
}.

Definition regex : Type := list atom.

(** Number of leading characters of [s] in class [p]. *)
Fixpoint span (p : N -> bool) (s : pystr) : nat :=
  match s with
  | c :: s' => if p c then S (span p s') else O
  | [] => O
  end.

(** Greedy choice with backtracking: try [lo + extra] repetitions first,
    then one less, down to [lo]. *)
Fixpoint backtrack (A : Type) (try : nat -> option A) (lo extra : nat)
  : option A :=
  match try (lo + extra)%nat with
  | Some r => Some r
  | None =>
      match extra with
      | O => None
      | S e => backtrack try lo e
      end
  end.

(** Match [r] at the start of [s]: the length of the match and the text of
    the capture group. *)
Fixpoint match_here (r : regex) (s : pystr) : option (nat * pystr) :=
  match r with
  | [] => Some (O, [])
  | a :: r' =>
      let continue (k : nat) :=
        match match_here r' (skipn k s) with
        | Some (n, g) =>
            Some ((k + n)%nat, (if grp a then firstn k s else []) ++ g)
        | None => None
        end in
      let avail := span (cls a) s in
      match qnt a with
      | One => if (1 <=? avail)%nat then continue 1%nat else None
      | Plus =>
          if (1 <=? avail)%nat then backtrack continue 1 (avail - 1) else None
      | Star => backtrack continue 0 avail
      end
  end.

(** [re.search(r, s)]: the leftmost match, as [group(0)]. *)
Fixpoint re_search (r : regex) (s : pystr) : option pystr :=
  match match_here r s with
  | Some (n, _) => Some (firstn n s)
  | None =>
      match s with
      | [] => None
      | _ :: s' => re_search r s'
      end
  end.

(** [re.findall(r, s)] for a pattern with one group: the group of every
    match, scanning from the left and resuming after each match.  [skip] is
    the number of characters still covered by the previous match. *)
Fixpoint findall_from (r : regex) (s : pystr) (skip : nat) : list pystr :=
  match skip with
  | S k =>
      match s with
      | [] => []
      | _ :: s' => findall_from r s' k
      end
  | O =>
      match match_here r s with
      | Some (n, g) =>
          g :: match s with
               | [] => []
               | _ :: s' => findall_from r s' (n - 1)
               end
      | None =>
          match s with
          | [] => []
          | _ :: s' => findall_from r s' 0
          end
      end
  end.

Definition re_findall (r : regex) (s : pystr) : list pystr :=
  findall_from r s 0.

(** Character classes. *)
Definition chr_is (x : N) : N -> bool := fun c => c =? x.
Definition chr_not (x : N) : N -> bool := fun c => negb (c =? x).
Definition any_chr : N -> bool := fun _ => true.

(** A lower-case ASCII letter of a pattern under [re.IGNORECASE]: the
    letter, its capital, and for [s] the long s U+017F. *)
Definition chr_icase (lo : N) : N -> bool :=
  fun c => (c =? lo) || (c =? lo - 32) || ((lo =? 115) && (c =? 383)).

Definition word_icase (w : string) : regex :=
  map (fun lo => Atom (chr_icase lo) One false) (str w).

Definition colon_or_space : N -> bool := fun c => (c =? 58) || isspace c.

(** [r'\{.*\}'] with [re.DOTALL]; the whole match is wanted, so every item
    is marked as captured. *)
Definition brace_pattern : regex :=
  [ Atom (chr_is 123) One true; Atom any_chr Star true;
    Atom (chr_is 125) One true ].

(** The rest of a line: [([^\n]+)]. *)
Definition line_group : atom := Atom (chr_not 10) Plus true.

(** [dialogue_patterns], in the order of the source.  Of the flags
    [re.IGNORECASE | re.MULTILINE] only the first has an effect, and only on
    the letters of [Host] and [Analyst]. *)
Definition dialogue_patterns : list regex :=
  [ (* quotes around [([^q]+)], q the double quote *)
    [ Atom (chr_is 34) One false; Atom (chr_not 34) Plus true;
      Atom (chr_is 34) One false ];
    (* Host[:\s]+([^\n]+) *)
    word_icase "host" ++ [ Atom colon_or_space Plus false; line_group ];
    (* Analyst[:\s]+([^\n]+) *)
    word_icase "analyst" ++ [ Atom colon_or_space Plus false; line_group ];
    (* U+2022 (bullet), then [\s*([^\n]+)] *)
    [ Atom (chr_is 8226) One false; Atom isspace Star false; line_group ];
    (* \d+\.\s*([^\n]+) *)
    [ Atom isdecimal Plus false; Atom (chr_is 46) One false;
      Atom isspace Star false; line_group ];
    (* -\s*([^\n]+) *)
    [ Atom (chr_is 45) One false; Atom isspace Star false; line_group ] ].


(* ================================================================== *)
(** * Python values *)

(** The values the handler sees: what [json.loads] returns and what the
    vector store keeps as metadata.  A [dict] keeps its keys in insertion
    order.  A double is represented by the literal it was read from; no
    function of the handler computes with one. *)
Inductive value : Type :=
| VNone
| VBool (b : bool)
| VInt (z : Z)
| VFloat (lit : pystr)
| VStr (s : pystr)
| VList (l : list value)
| VDict (d : list (pystr * value)).

Definition dict : Type := list (pystr * value).

(** [d.get(k)] *)
Fixpoint dict_get (k : pystr) (d : dict) : option value :=
  match d with
  | [] => None
  | (k', v) :: d' => if str_eqb k k' then Some v else dict_get k d'
  end.

(** [k in d] *)
Definition dict_mem (k : pystr) (d : dict) : bool :=
  match dict_get k d with Some _ => true | None => false end.

(** [d[k] = v]: an existing key keeps its position, a new one goes last. *)
Fixpoint dict_set (k : pystr) (v : value) (d : dict) : dict :=
  match d with
  | [] => [(k, v)]
  | (k', v') :: d' =>
      if str_eqb k k' then (k', v) :: d' else (k', v') :: dict_set k v d'
  end.

(** [if k not in d: d[k] = v] *)
Definition setdefault (k : pystr) (v : value) (d : dict) : dict :=
  if dict_mem k d then d else dict_set k v d.

Definition is_str (v : value) : bool :=
  match v with VStr _ => true | _ => false end.

(** The strings of a list whose items are all [str]. *)
Fixpoint all_str (l : list value) : option (list pystr) :=
  match l with
  | [] => Some []
  | VStr s :: l' =>
      match all_str l' with
      | Some r => Some (s :: r)
      | None => None
      end
  | _ :: _ => None
  end.

(** Exceptions the handler can meet. *)
Inductive exn : Type :=
| JSONDecodeError
| RecursionError
| TypeError
| AttributeError
| IndexError
| ServiceError (code : N).

Inductive result (A : Type) : Type :=
| Ok (a : A)
| Raise (e : exn).

Arguments Ok {A} a.
Arguments Raise {A} e.

(* ================================================================== *)
(** * The [json] module

    [json.loads] as the scanner of the standard library does it:
    whitespace is space, tab, line feed and carriage return; strings are
    strict (no raw control character); numbers without fraction and exponent
    are integers; [NaN], [Infinity] and [-Infinity] are accepted; a repeated
    key keeps its first position and its last value. *)

Definition is_json_ws (c : N) : bool :=
  (c =? 32) || (c =? 9) || (c =? 10) || (c =? 13).

Fixpoint skip_ws (s : pystr) : pystr :=
  match s with
  | c :: s' => if is_json_ws c then skip_ws s' else s
  | [] => []
  end.

Definition hex_digit (c : N) : option N :=
  if in_range 48 57 c then Some (c - 48)
  else if in_range 97 102 c then Some (c - 87)
  else if in_range 65 70 c then Some (c - 55)
  else None.

Definition hex4 (a b c d : N) : option N :=
  match hex_digit a, hex_digit b, hex_digit c, hex_digit d with
  | Some x, Some y, Some z, Some w => Some (((x * 16 + y) * 16 + z) * 16 + w)
  | _, _, _, _ => None
  end.

(** The character after a backslash, other than [u]. *)
Definition simple_escape (c : N) : option N :=
  if c =? 34 then Some 34
  else if c =? 92 then Some 92
  else if c =? 47 then Some 47
  else if c =? 98 then Some 8
  else if c =? 102 then Some 12
  else if c =? 110 then Some 10
  else if c =? 114 then Some 13
  else if c =? 116 then Some 9
  else None.

Definition is_high_surrogate (c : N) : bool := in_range 55296 56319 c.
Definition is_low_surrogate (c : N) : bool := in_range 56320 57343 c.
Definition join_surrogates (hi lo : N) : N :=
  65536 + (hi - 55296) * 1024 + (lo - 56320).

Definition push (c : N) (r : option (pystr * pystr)) : option (pystr * pystr) :=
  match r with
  | Some (t, rest) => Some (c :: t, rest)
  | None => None
  end.

(** The body of a string, from after its opening quote: the decoded text and
    what follows the closing quote. *)
Fixpoint scanstring (s : pystr) : option (pystr * pystr) :=
  match s with
  | [] => None
  | c :: s1 =>
      if c =? 34 then Some ([], s1)
      else if c =? 92 then
        match s1 with
        | [] => None
        | e :: s2 =>
            if e =? 117 then
              match s2 with
              | h1 :: h2 :: h3 :: h4 :: s3 =>
                  match hex4 h1 h2 h3 h4 with
                  | None => None
                  | Some u =>
                      match s3 with
                      | b :: e' :: g1 :: g2 :: g3 :: g4 :: s4 =>
                          if is_high_surrogate u && (b =? 92) && (e' =? 117)
                          then
                            match hex4 g1 g2 g3 g4 with
                            | None => None
                            | Some lo =>
                                if is_low_surrogate lo
                                then push (join_surrogates u lo) (scanstring s4)
                                else push u (scanstring s3)
                            end
                          else push u (scanstring s3)
                      | _ => push u (scanstring s3)
                      end
                  end
              | _ => None
              end
            else
              match simple_escape e with
              | Some x => push x (scanstring s2)
              | None => None
              end
        end
      else if c <? 32 then None
      else push c (scanstring s1)
  end.

(** [p] as a prefix of [s]: what follows it. *)
Fixpoint starts_with (p s : pystr) : option pystr :=
  match p, s with
  | [], _ => Some s
  | x :: p', y :: s' => if x =? y then starts_with p' s' else None
  | _ :: _, [] => None
  end.

Definition digits_value (ds : pystr) : Z :=
  fold_left (fun acc c => (10 * acc + Z.of_N (c - 48))%Z) ds 0%Z.

(** Length of the integer part at the start of [s]: [0], or a non-zero digit
    and the digits after it. *)
Definition int_part_len (s : pystr) : nat :=
  match s with
  | c :: _ =>
      if c =? 48 then 1%nat
      else if in_range 49 57 c then span is_ascii_digit s
      else O
  | [] => O
  end.

(** Length of the fraction at the start of [s]: a dot and at least one
    digit, or nothing. *)
Definition frac_len (s : pystr) : nat :=
  match s with
  | c :: s' =>
      if (c =? 46) && (1 <=? span is_ascii_digit s')%nat
      then S (span is_ascii_digit s') else O
  | [] => O
  end.

(** Length of the exponent at the start of [s]: [e] or [E], an optional
    sign, and at least one digit, or nothing. *)
Definition exp_len (s : pystr) : nat :=
  match s with
  | c :: s' =>
      if (c =? 101) || (c =? 69) then
        match s' with
        | sg :: s'' =>
            if (sg =? 43) || (sg =? 45) then
              if (1 <=? span is_ascii_digit s'')%nat
              then S (S (span is_ascii_digit s'')) else O
            else
              if (1 <=? span is_ascii_digit s')%nat
              then S (span is_ascii_digit s') else O
        | [] => O
        end
      else O
  | [] => O
  end.

(** A number at the start of [s]. *)
Definition match_number (s : pystr) : option (value * pystr) :=
  let neg := match s with c :: _ => c =? 45 | [] => false end in
  let body := if neg then tl s else s in
  let n := int_part_len body in
  if (n =? 0)%nat then None
  else
    let f := frac_len (skipn n body) in
    let e := exp_len (skipn (n + f) body) in
    let len := ((if neg then 1 else 0) + n + f + e)%nat in
    if ((f =? 0) && (e =? 0))%nat
    then
      let z := digits_value (firstn n body) in
      Some (VInt (if neg then (- z)%Z else z), skipn len s)
    else Some (VFloat (firstn len s), skipn len s).

Definition keyword (kw : string) (v : value) (s : pystr)
  : option (value * pystr) :=
  match starts_with (str kw) s with
  | Some rest => Some (v, rest)
  | None => None
  end.

(** [scan_once] and the object and array loops.  The fuel bounds the
    nesting of calls; [json_loads] gives enough of it for its text. *)
Fixpoint parse_value (fuel : nat) (s : pystr) {struct fuel}
  : option (value * pystr) :=
  match fuel with
  | O => None
  | S f =>
      match s with
      | [] => None
      | c :: s1 =>
          if c =? 34 then
            match scanstring s1 with
            | Some (t, rest) => Some (VStr t, rest)
            | None => None
            end
          else if c =? 123 then
            match skip_ws s1 with
            | c1 :: s2 =>
                if c1 =? 125 then Some (VDict [], s2)
                else parse_pairs f (c1 :: s2) []
            | [] => None
            end
          else if c =? 91 then
            match skip_ws s1 with
            | c1 :: s2 =>
                if c1 =? 93 then Some (VList [], s2)
                else parse_items f (c1 :: s2) []
            | [] => None
            end
          else if c =? 110 then keyword "null" VNone s
          else if c =? 116 then keyword "true" (VBool true) s
          else if c =? 102 then keyword "false" (VBool false) s
          else if c =? 78 then keyword "NaN" (VFloat (str "NaN")) s
          else if c =? 73 then keyword "Infinity" (VFloat (str "Infinity")) s
          else
            match keyword "-Infinity" (VFloat (str "-Infinity")) s with
            | Some r => Some r
            | None => match_number s
            end
      end
  end

with parse_items (fuel : nat) (s : pystr) (acc : list value) {struct fuel}
  : option (value * pystr) :=
  match fuel with
  | O => None
  | S f =>
      match parse_value f s with
      | Some (v, s1) =>
          match skip_ws s1 with
          | c :: s2 =>
              if c =? 93 then Some (VList (acc ++ [v]), s2)
              else if c =? 44 then parse_items f (skip_ws s2) (acc ++ [v])
              else None
          | [] => None
          end
      | None => None
      end
  end

with parse_pairs (fuel : nat) (s : pystr) (acc : dict) {struct fuel}
  : option (value * pystr) :=
  match fuel with
  | O => None
  | S f =>
      match s with
      | c :: s1 =>
          if c =? 34 then
            match scanstring s1 with
            | Some (key, s2) =>
                match skip_ws s2 with
                | c2 :: s3 =>
                    if c2 =? 58 then
                      match parse_value f (skip_ws s3) with
                      | Some (v, s4) =>
                          match skip_ws s4 with
                          | c5 :: s6 =>
                              if c5 =? 125
                              then Some (VDict (dict_set key v acc), s6)
                              else if c5 =? 44
                              then parse_pairs f (skip_ws s6)
                                     (dict_set key v acc)
                              else None
                          | [] => None
                          end
                      | None => None
                      end
                    else None
                | [] => None
                end
            | None => None
            end
          else None
      | [] => None
      end
  end.

(** [json.loads(s)] *)
Definition json_loads (s : pystr) : result value :=
  match parse_value (2 * List.length s + 2) (skip_ws s) with
  | Some (v, rest) =>
      match skip_ws rest with
      | [] => Ok v
      | _ :: _ => Raise JSONDecodeError
      end
  | None => Raise JSONDecodeError
  end.

(** Decimal digits. *)
Fixpoint uint_digits (d : Decimal.uint) : pystr :=
  match d with
  | Decimal.Nil => []
  | Decimal.D0 d' => 48 :: uint_digits d'
  | Decimal.D1 d' => 49 :: uint_digits d'
  | Decimal.D2 d' => 50 :: uint_digits d'
  | Decimal.D3 d' => 51 :: uint_digits d'
  | Decimal.D4 d' => 52 :: uint_digits d'
  | Decimal.D5 d' => 53 :: uint_digits d'
  | Decimal.D6 d' => 54 :: uint_digits d'
  | Decimal.D7 d' => 55 :: uint_digits d'
  | Decimal.D8 d' => 56 :: uint_digits d'
  | Decimal.D9 d' => 57 :: uint_digits d'
  end.

Definition int_repr (z : Z) : pystr :=
  match z with
  | Z0 => [48]
  | Zpos p => uint_digits (Pos.to_uint p)
  | Zneg p => 45 :: uint_digits (Pos.to_uint p)
  end.

Definition hex_char (n : N) : N := if n <? 10 then 48 + n else 87 + n.

(** [\uXXXX], lower-case. *)
Definition u_escape (c : N) : pystr :=
  [ 92; 117; hex_char (c / 4096); hex_char ((c / 256) mod 16);
    hex_char ((c / 16) mod 16); hex_char (c mod 16) ].

(** One character of a string under [ensure_ascii]. *)
Definition encode_char (c : N) : pystr :=
  if c =? 34 then [92; 34]
  else if c =? 92 then [92; 92]
  else if c =? 10 then [92; 110]
  else if c =? 13 then [92; 114]
  else if c =? 9 then [92; 116]
  else if c =? 12 then [92; 102]
  else if c =? 8 then [92; 98]
  else if in_range 32 126 c then [c]
  else if c <? 65536 then u_escape c
  else u_escape (55296 + (c - 65536) / 1024)
       ++ u_escape (56320 + (c - 65536) mod 1024).

Definition encode_string (s : pystr) : pystr :=
  [34] ++ flat_map encode_char s ++ [34].

(** [sep.join(parts)] *)
Fixpoint join (sep : pystr) (parts : list pystr) : pystr :=
  match parts with
  | [] => []
  | [p] => p
  | p :: ps => p ++ sep ++ join sep ps
  end.

(** [json.dumps(v)] with its defaults.  A double is written as the literal
    it was read from. *)
Fixpoint json_dumps (v : value) : pystr :=
  match v with
  | VNone => str "null"
  | VBool true => str "true"
  | VBool false => str "false"
  | VInt z => int_repr z
  | VFloat lit => lit
  | VStr s => encode_string s
  | VList l => [91] ++ join (str ", ") (map json_dumps l) ++ [93]
  | VDict d =>
      [123]
      ++ join (str ", ")
           (map (fun kv : pystr * value =>
                   let (k, x) := kv in
                   encode_string k ++ str ": " ++ json_dumps x) d)
      ++ [125]
  end.

(* ================================================================== *)
(** * Insight extraction *)

Definition original_content : pystr := str "original_content".
Definition page_number : pystr := str "page_number".
Definition document_name : pystr := str "document_name".
Definition bounding_box : pystr := str "bounding_box".
Definition unknown_document : pystr := str "Unknown Document".

(** One item of the list under the expected key: a [dict] gets the missing
    required fields, a [str] becomes a record, anything else is left out. *)
Definition validate_insight (insight_type : pystr) (insight : value)
  : option value :=
  match insight with
  | VDict d =>
      let d1 :=
        setdefault original_content
          (VStr (str "Content not available for this " ++ insight_type)) d in
      let d2 := setdefault page_number (VInt 0) d1 in
      let d3 := setdefault document_name (VStr unknown_document) d2 in
      Some (VDict d3)
  | VStr s =>
      Some (VDict [ (original_content, VStr s);
                    (page_number, VInt 0);
                    (document_name, VStr unknown_document);
                    (bounding_box, VDict []) ])
  | _ => None
  end.

Fixpoint validated_insights (insight_type : pystr) (insights : list value)
  : list value :=
  match insights with
  | [] => []
  | insight :: rest =>
      match validate_insight insight_type insight with
      | Some v => v :: validated_insights insight_type rest
      | None => validated_insights insight_type rest
      end
  end.

(** [alternative_keys.get(expected_key, [])] *)
Definition alternative_keys (expected_key : pystr) : list pystr :=
  if str_eqb expected_key (str "contradictions")
  then map str ["contradictory"; "opposing"; "conflicts"; "disagreements"]%string
  else if str_eqb expected_key (str "enhancements")
  then map str ["details"; "expansions"; "elaborations"; "specifics"]%string
  else if str_eqb expected_key (str "connections")
  then map str ["related"; "links"; "associations"; "relationships"]%string
  else [].

(** The first alternative key that is present with a non-empty list. *)
Fixpoint first_alternative (keys : list pystr) (parsed_json : dict)
  : option (list value) :=
  match keys with
  | [] => None
  | alt_key :: keys' =>
      match dict_get alt_key parsed_json with
      | Some (VList (x :: l)) => Some (x :: l)
      | _ => first_alternative keys' parsed_json
      end
  end.

(** The first entry, in the order of the [dict], whose value is a non-empty
    list. *)
Fixpoint first_list_entry (items : dict) : option (list value) :=
  match items with
  | [] => None
  | (_, VList (x :: l)) :: _ => Some (x :: l)
  | _ :: items' => first_list_entry items'
  end.

(** The list under the expected key, validated, when that leaves
    something. *)
Definition expected_insights (parsed_json : dict)
  (expected_key insight_type : pystr) : option (list value) :=
  match dict_get expected_key parsed_json with
  | Some (VList insights) =>
      match validated_insights insight_type insights with
      | [] => None
      | v :: vs => Some (v :: vs)
      end
  | _ => None
  end.

(** [extract_insights_from_response(text, expected_key, insight_type)].
    [depth] is the number of nested calls the interpreter still allows; the
    function calls itself on the re-serialised list of an alternative key. *)
Fixpoint extract_insights_from_response (depth : nat)
  (text expected_key insight_type : pystr) : result (list value) :=
  match depth with
  | O => Raise RecursionError
  | S depth' =>
      match re_search brace_pattern text with
      | None => Ok []
      | Some json_str =>
          match json_loads json_str with
          | Raise JSONDecodeError => Ok []
          | Raise e => Raise e
          | Ok (VDict parsed_json) =>
              match expected_insights parsed_json expected_key insight_type
              with
              | Some validated => Ok validated
              | None =>
                  match first_alternative (alternative_keys expected_key)
                          parsed_json with
                  | Some alt_insights =>
                      extract_insights_from_response depth'
                        (json_dumps (VDict [(expected_key, VList alt_insights)]))
                        expected_key insight_type
                  | None =>
                      match first_list_entry parsed_json with
                      | Some value_ =>
                          extract_insights_from_response depth'
                            (json_dumps (VDict [(expected_key, VList value_)]))
                            expected_key insight_type
                      | None => Ok []
                      end
                  end
              end
          | Ok _ => Raise TypeError
          end
      end
  end.

(* ================================================================== *)
(** * Podcast conversation extraction *)

(** [l[:-1]] when the length is odd. *)
Definition trim_even (A : Type) (l : list A) : list A :=
  if Nat.even (List.length l) then l else removelast l.

(** The list under the key [conversation]. *)
Definition expected_conversation (conversation : value)
  : option (list pystr) :=
  match conversation with
  | VList items =>
      match all_str items with
      | Some lines =>
          if (4 <=? List.length lines)%nat then
            if Nat.even (List.length lines) then Some lines
            else Some (removelast lines)
          else None
      | None => None
      end
  | _ => None
  end.

Definition conversation_alternative_keys : list pystr :=
  map str ["dialogue"; "script"; "podcast"; "messages"; "exchanges";
           "lines"]%string.

(** The loop over the alternative keys: only the first key that is present
    is looked at. *)
Fixpoint alternative_conversation (keys : list pystr) (parsed_json : dict)
  : option (list pystr) :=
  match keys with
  | [] => None
  | key :: keys' =>
      match dict_get key parsed_json with
      | Some alt_conversation =>
          match alt_conversation with
          | VList items =>
              if (4 <=? List.length items)%nat then
                match all_str items with
                | Some lines => Some (trim_even lines)
                | None => None
                end
              else None
          | _ => None
          end
      | None => alternative_conversation keys' parsed_json
      end
  end.

(** [cleaned_matches]: the stripped matches longer than ten characters. *)
Definition cleaned_matches (matches : list pystr) : list pystr :=
  map strip
    (filter (fun m => (10 <? List.length (strip m))%nat) matches).

(** The loop over [dialogue_patterns]: [extracted_lines]. *)
Fixpoint extracted_lines (patterns : list regex) (text : pystr)
  : list pystr :=
  match patterns with
  | [] => []
  | pattern :: patterns' =>
      match re_findall pattern text with
      | [] => extracted_lines patterns' text
      | matches =>
          if (4 <=? List.length (cleaned_matches matches))%nat
          then firstn 12 (cleaned_matches matches)
          else extracted_lines patterns' text
      end
  end.

Definition debater_fallback : list pystr :=
  map str
    [ "Welcome to our debate-style analysis of your selected text.";
      "I believe this topic has some controversial aspects worth discussing.";
      "That's an interesting perspective. However, I see some counterarguments.";
      "Fair point, but let's consider the evidence from multiple angles.";
      "The data seems to support both viewpoints to some degree.";
      "True, this complexity makes it a fascinating subject for analysis.";
      "Let's explore what the context reveals about these different positions.";
      "The insights suggest this topic deserves deeper investigation."
    ]%string.

Definition investigator_fallback : list pystr :=
  map str
    [ "Let's investigate your selected text with a critical eye.";
      "The evidence in our context provides several key insights.";
      "What specific details support these findings?";
      "The documentation shows clear patterns worth examining.";
      "Are there any gaps in the information we should note?";
      "Good question - some areas definitely need more investigation.";
      "The factual analysis reveals important connections.";
      "This investigation approach helps uncover hidden insights."
    ]%string.

Definition fundamentals_fallback : list pystr :=
  map str
    [ "Let's start with the basic concepts underlying your selected text.";
      "Understanding the fundamentals is crucial for deeper analysis.";
      "What are the core principles we should establish first?";
      "The foundational elements include several key components.";
      "How do these basics connect to more advanced concepts?";
      "That's where it gets interesting - the progression is quite logical.";
      "Building from these fundamentals leads to richer understanding.";
      "Exactly, this step-by-step approach reveals the full picture."
    ]%string.

Definition connections_fallback : list pystr :=
  map str
    [ "Let's explore the surprising connections in your selected text.";
      "This topic links to several unexpected areas worth discussing.";
      "What patterns do you see emerging across different domains?";
      "The connections span multiple fields in fascinating ways.";
      "Are there analogies that might help illustrate these relationships?";
      "Great question - there are some compelling parallels to consider.";
      "These cross-domain insights reveal deeper underlying principles.";
      "The interconnected nature of knowledge always amazes me."
    ]%string.

Definition generic_fallback : list pystr :=
  map str
    [ "Welcome to our podcast discussion.";
      "Unfortunately, we encountered some technical difficulties.";
      "Let's explore your selected text as best we can.";
      "The context provides valuable insights worth discussing.";
      "Thank you for your patience with this analysis.";
      "We hope this perspective is still helpful.";
      "Please feel free to try again for better results.";
      "Thanks for listening to our discussion."
    ]%string.

Definition fallback_conversations : list (pystr * list pystr) :=
  [ (str "debater", debater_fallback);
    (str "investigator", investigator_fallback);
    (str "fundamentals", fundamentals_fallback);
    (str "connections", connections_fallback) ].

(** [fallback_conversations.get(persona, default)] *)
Fixpoint get_conversation (table : list (pystr * list pystr))
  (persona : pystr) (default : list pystr) : list pystr :=
  match table with
  | [] => default
  | (k, v) :: table' =>
      if str_eqb persona k then v else get_conversation table' persona default
  end.

(** What the function does once the JSON tier has given nothing: the text
    patterns, then the canned conversation. *)
Definition conversation_from_text (text persona : pystr) : list pystr :=
  let lines := extracted_lines dialogue_patterns text in
  if (4 <=? List.length lines)%nat then trim_even lines
  else get_conversation fallback_conversations persona generic_fallback.

(** What the JSON tier gives for a parsed object. *)
Definition conversation_from_json (parsed_json : dict)
  : option (list pystr) :=
  match dict_get (str "conversation") parsed_json with
  | Some conversation => expected_conversation conversation
  | None => alternative_conversation conversation_alternative_keys parsed_json
  end.

(** [extract_podcast_conversation_from_response(text, persona)] *)
Definition extract_podcast_conversation_from_response
  (text persona : pystr) : result (list pystr) :=
  match re_search brace_pattern text with
  | None => Ok (conversation_from_text text persona)
  | Some json_str =>
      match json_loads json_str with
      | Raise JSONDecodeError => Ok (conversation_from_text text persona)
      | Raise e => Raise e
      | Ok (VDict parsed_json) =>
          match conversation_from_json parsed_json with
          | Some conversation => Ok conversation
          | None => Ok (conversation_from_text text persona)
          end
      | Ok _ => Raise TypeError
      end
  end.

(* ================================================================== *)
(** * Services

    The handler awaits four services.  A program is a tree of requests, each
    answered by a result or an exception. *)

(** An embedding vector and a reranker score; only the order of scores is
    used. *)
Definition embedding : Type := list Q.
Definition score : Type := Q.

(** The reply of the generation model: whether it has parts, and its text
    (reading the text of a reply can raise). *)
Record response : Type := Response {
  parts : bool;
  text_of : result pystr
}.

Inductive template : Type :=
| CONTRADICTION_PROMPT
| ENHANCEMENT_PROMPT
| CONNECTION_PROMPT.

(** A rendered prompt, given by its template and the two format fields. *)
Record prompt : Type := Prompt {
  prompt_template : template;
  prompt_user_selection : pystr;
  prompt_context_sections_json : pystr
}.

Inductive io (A : Type) : Type :=
| Ret (a : A)
  (* genai.embed_content_async(content=...): the [embedding] field of the
     reply, [None] when the reply is empty or lacks it *)
| Embed (content : pystr) (k : result (option embedding) -> io A)
  (* collection.query(query_embeddings=[e], n_results=n): the [metadatas]
     field of the reply, [None] when it is absent *)
| Query (e : embedding) (n_results : nat)
        (k : result (option (list (list value))) -> io A)
  (* reranker.predict(pairs) *)
| Predict (pairs : list (pystr * value)) (k : result (list score) -> io A)
  (* generation_model.generate_content_async(prompt) *)
| Generate (p : prompt) (k : result response -> io A).

Arguments Ret {A} a.
Arguments Embed {A} content k.
Arguments Query {A} e n_results k.
Arguments Predict {A} pairs k.
Arguments Generate {A} p k.

Fixpoint bind (A B : Type) (m : io A) (f : A -> io B) : io B :=
  match m with
  | Ret a => f a
  | Embed c k => Embed c (fun r => bind (k r) f)
  | Query e n k => Query e n (fun r => bind (k r) f)
  | Predict ps k => Predict ps (fun r => bind (k r) f)
  | Generate p k => Generate p (fun r => bind (k r) f)
  end.

(** How the services answer. *)
Record world : Type := World {
  embed_content : pystr -> result (option embedding);
  collection_query : embedding -> nat -> result (option (list (list value)));
  reranker_predict : list (pystr * value) -> result (list score);
  generate_content : prompt -> result response
}.

Inductive call : Type :=
| CallEmbed (content : pystr)
| CallQuery (e : embedding) (n_results : nat)
| CallPredict (pairs : list (pystr * value))
| CallGenerate (p : prompt).

(** The value a program returns in a world. *)
Fixpoint run (A : Type) (w : world) (m : io A) : A :=
  match m with
  | Ret a => a
  | Embed c k => run w (k (embed_content w c))
  | Query e n k => run w (k (collection_query w e n))
  | Predict ps k => run w (k (reranker_predict w ps))
  | Generate p k => run w (k (generate_content w p))
  end.

(** The requests it makes, in order. *)
Fixpoint calls (A : Type) (w : world) (m : io A) : list call :=
  match m with
  | Ret _ => []
  | Embed c k => CallEmbed c :: calls w (k (embed_content w c))
  | Query e n k => CallQuery e n :: calls w (k (collection_query w e n))
  | Predict ps k => CallPredict ps :: calls w (k (reranker_predict w ps))
  | Generate p k => CallGenerate p :: calls w (k (generate_content w p))
  end.

(* ================================================================== *)
(** * Retrieval *)

(** Truth value of a Python value. *)
Definition float_nonzero (lit : pystr) : bool :=
  existsb (fun c => in_range 49 57 c || (c =? 78) || (c =? 73))
    (firstn (span (fun c => negb ((c =? 101) || (c =? 69))) lit) lit).

Definition truthy (v : value) : bool :=
  match v with
  | VNone => false
  | VBool b => b
  | VInt z => negb (z =? 0)%Z
  | VFloat lit => float_nonzero lit
  | VStr s => match s with [] => false | _ :: _ => true end
  | VList l => match l with [] => false | _ :: _ => true end
  | VDict d => match d with [] => false | _ :: _ => true end
  end.

Definition hashable (v : value) : bool :=
  match v with
  | VList _ | VDict _ => false
  | _ => true
  end.

Definition int_of (v : value) : option Z :=
  match v with
  | VBool b => Some (if b then 1 else 0)%Z
  | VInt z => Some z
  | _ => None
  end.

(** [a == b] on hashable values: strings by their text, [bool] and [int] by
    their number, doubles by their literal. *)
Definition py_eq (a b : value) : bool :=
  match a, b with
  | VStr x, VStr y => str_eqb x y
  | VNone, VNone => true
  | VFloat x, VFloat y => str_eqb x y
  | _, _ =>
      match int_of a, int_of b with
      | Some x, Some y => (x =? y)%Z
      | _, _ => false
      end
  end.

(** [content in seen_content]; an unhashable [content] raises. *)
Definition set_contains (seen_content : list value) (content : value)
  : result bool :=
  if hashable content then Ok (existsb (py_eq content) seen_content)
  else Raise TypeError.

(** The [bounding_box] step: a [str] is decoded, to an empty [dict] when it
    is not JSON; a missing one becomes an empty [dict]. *)
Definition handle_bounding_box (meta : dict) : dict :=
  match dict_get bounding_box meta with
  | Some (VStr s) =>
      match json_loads s with
      | Ok v => dict_set bounding_box v meta
      | Raise _ => dict_set bounding_box (VDict []) meta
      end
  | Some _ => meta
  | None => dict_set bounding_box (VDict []) meta
  end.

(** The record a kept candidate becomes. *)
Definition normalize_meta (meta : dict) : dict :=
  handle_bounding_box
    (setdefault document_name (VStr unknown_document)
       (setdefault page_number (VInt 0) meta)).

(** [meta.get('original_content', '')] *)
Definition content_of (meta : dict) : value :=
  match dict_get original_content meta with
  | Some v => v
  | None => VStr []
  end.

(** The validate-and-clean loop of both retrievals: [unique_results] for the
    candidates [metas], given what [seen_content] holds. *)
Fixpoint unique_results (metas : list value) (seen_content : list value)
  : list value :=
  match metas with
  | [] => []
  | VDict meta :: rest =>
      let content := content_of meta in
      if negb (truthy content) then unique_results rest seen_content
      else
        match set_contains seen_content content with
        | Raise _ => unique_results rest seen_content
        | Ok true => unique_results rest seen_content
        | Ok false =>
            VDict (normalize_meta meta)
            :: unique_results rest (content :: seen_content)
        end
  | _ :: rest => unique_results rest seen_content
  end.

(** The input check of both retrievals. *)
Definition selection_too_short (user_selection : pystr) : bool :=
  negb (truthy (VStr user_selection))
  || (List.length (strip user_selection) <? 3)%nat.

(** [query_results.get('metadatas', [[]])[0]] *)
Definition candidate_metadatas (metadatas : option (list (list value)))
  : result (list value) :=
  match metadatas with
  | None => Ok []
  | Some [] => Raise IndexError
  | Some (first :: _) => Ok first
  end.

(** [[user_selection, meta.get('original_content', '')] for meta in ...] *)
Fixpoint rerank_pairs (user_selection : pystr) (metas : list value)
  : result (list (pystr * value)) :=
  match metas with
  | [] => Ok []
  | VDict meta :: rest =>
      match rerank_pairs user_selection rest with
      | Ok ps => Ok ((user_selection, content_of meta) :: ps)
      | Raise e => Raise e
      end
  | _ :: _ => Raise AttributeError
  end.

(** [sorted(..., key=lambda x: x[0], reverse=True)]: descending and
    stable. *)
Fixpoint insert_desc (x : score * value) (l : list (score * value))
  : list (score * value) :=
  match l with
  | [] => [x]
  | y :: l' =>
      if Qle_bool (fst y) (fst x) then x :: l else y :: insert_desc x l'
  end.

Fixpoint sorted_desc (l : list (score * value)) : list (score * value) :=
  match l with
  | [] => []
  | x :: l' => insert_desc x (sorted_desc l')
  end.

(** The rerank step, given the answer of the reranker. *)
Definition reranked_results (candidates : list value)
  (scores : result (list score)) : list value :=
  match scores with
  | Ok sc => map snd (firstn 30 (sorted_desc (combine sc candidates)))
  | Raise _ => firstn 30 candidates
  end.

(** [retrieve_fast_async(user_selection)] *)
Definition retrieve_fast_async (user_selection : pystr) : io (list value) :=
  if selection_too_short user_selection then Ret []
  else
    Embed user_selection (fun result_ =>
      match result_ with
      | Raise _ => Ret []
      | Ok None => Ret []
      | Ok (Some query_embedding) =>
          Query query_embedding 100 (fun query_results =>
            match query_results with
            | Raise _ => Ret []
            | Ok metadatas =>
                match candidate_metadatas metadatas with
                | Raise _ => Ret []
                | Ok [] => Ret []
                | Ok (m :: ms) =>
                    let candidates := m :: ms in
                    match rerank_pairs user_selection candidates with
                    | Raise e =>
                        Ret (unique_results
                               (reranked_results candidates (Raise e)) [])
                    | Ok pairs =>
                        Predict pairs (fun scores =>
                          Ret (unique_results
                                 (reranked_results candidates scores) []))
                    end
                end
            end)
      end).

(** [retrieve_large_context_async(user_selection)] *)
Definition retrieve_large_context_async (user_selection : pystr)
  : io (list value) :=
  if selection_too_short user_selection then Ret []
  else
    Embed user_selection (fun result_ =>
      match result_ with
      | Raise _ => Ret []
      | Ok None => Ret []
      | Ok (Some query_embedding) =>
          Query query_embedding 200 (fun query_results =>
            match query_results with
            | Raise _ => Ret []
            | Ok metadatas =>
                match candidate_metadatas metadatas with
                | Raise _ => Ret []
                | Ok [] => Ret []
                | Ok (m :: ms) => Ret (unique_results (m :: ms) [])
                end
            end)
      end).

(* ================================================================== *)
(** * Insight fan-out *)

(** The depth of nested calls the interpreter allows by default. *)
Definition recursion_limit : nat := 1000.

(** The body of the three [find_*_async] after the generation call: any
    exception gives the empty list. *)
Definition insights_of_reply (reply : result response)
  (expected_key insight_type : pystr) : list value :=
  match reply with
  | Raise _ => []
  | Ok r =>
      if negb (parts r) then []
      else
        match text_of r with
        | Raise _ => []
        | Ok text =>
            match extract_insights_from_response recursion_limit text
                    expected_key insight_type with
            | Ok insights => insights
            | Raise _ => []
            end
        end
  end.

Definition find_async (t : template) (expected_key insight_type : pystr)
  (user_selection : pystr) (context : list value) : io (list value) :=
  Generate (Prompt t user_selection (json_dumps (VList context)))
    (fun reply => Ret (insights_of_reply reply expected_key insight_type)).

Definition find_enhancements_async : pystr -> list value -> io (list value) :=
  find_async ENHANCEMENT_PROMPT (str "enhancements") (str "enhancement").

Definition find_connections_async : pystr -> list value -> io (list value) :=
  find_async CONNECTION_PROMPT (str "connections") (str "connection").

Definition find_contradictions_async : pystr -> list value -> io (list value) :=
  find_async CONTRADICTION_PROMPT (str "contradictions") (str "contradiction").

(** A task: a program that returns or raises. *)
Definition task (A : Type) : Type := io (result A).

Definition create_task (A : Type) (m : io A) : task A :=
  bind m (fun a => Ret (Ok a)).

(** [asyncio.gather(t0, t1, t2, return_exceptions=True)].  The tasks share
    nothing, so the order in which their requests are answered does not
    change what they return. *)
Definition gather3 (A : Type) (t0 t1 t2 : task A)
  : io (result A * result A * result A) :=
  bind t0 (fun r0 => bind t1 (fun r1 => bind t2 (fun r2 =>
    Ret (r0, r1, r2)))).

(** [results[i] if not isinstance(results[i], Exception) else []] *)
Definition or_empty (r : result (list value)) : list value :=
  match r with
  | Ok l => l
  | Raise _ => []
  end.

(** [final_insights] from the three gathered results. *)
Definition final_insights
  (results : result (list value) * result (list value) * result (list value))
  : dict :=
  let '(r0, r1, r2) := results in
  [ (str "enhancements", VList (or_empty r0));
    (str "connections", VList (or_empty r1));
    (str "contradictions", VList (or_empty r2)) ].

Definition empty_insights : dict :=
  [ (str "contradictions", VList []);
    (str "enhancements", VList []);
    (str "connections", VList []) ].

(** [generate_initial_insights_async(user_selection)] *)
Definition generate_initial_insights_async (user_selection : pystr)
  : io dict :=
  bind (retrieve_large_context_async user_selection) (fun large_context =>
    match large_context with
    | [] => Ret empty_insights
    | _ :: _ =>
        let enhancements_task :=
          create_task (find_enhancements_async user_selection large_context) in
        let connections_task :=
          create_task (find_connections_async user_selection large_context) in
        let contradictions_task :=
          create_task (find_contradictions_async user_selection large_context) in
        bind (gather3 enhancements_task connections_task contradictions_task)
          (fun results => Ret (final_insights results))
    end).

(* ================================================================== *)
(** * Notions used in the statements *)

(** The object the JSON tier of both extractions works on, when there is
    one: the span of [brace_pattern], decoded. *)
Definition parsed_reply (text : pystr) : option dict :=
  match re_search brace_pattern text with
  | Some json_str =>
      match json_loads json_str with
      | Ok (VDict parsed_json) => Some parsed_json
      | _ => None
      end
  | None => None
  end.

(** The personas with a style guide: the keys of [PERSONA_STYLES]. *)
Definition personas : list pystr :=
  map str ["debater"; "investigator"; "fundamentals"; "connections"]%string.

(** The value of the first key of [keys] that is present. *)
Fixpoint first_present (keys : list pystr) (d : dict) : option value :=
  match keys with
  | [] => None
  | k :: keys' =>
      match dict_get k d with
      | Some v => Some v
      | None => first_present keys' d
      end
  end.




(** What the insight extraction does with a parsed object. *)
Definition insights_from_json (rec : pystr -> result (list value))
  (parsed_json : dict) (expected_key insight_type : pystr)
  : result (list value) :=
  match expected_insights parsed_json expected_key insight_type with
  | Some validated => Ok validated
  | None =>
      match first_alternative (alternative_keys expected_key) parsed_json with
      | Some alt_insights =>
          rec (json_dumps (VDict [(expected_key, VList alt_insights)]))
      | None =>
          match first_list_entry parsed_json with
          | Some value_ =>
              rec (json_dumps (VDict [(expected_key, VList value_)]))
          | None => Ok []
          end
      end
  end.


(** The text a candidate is identified by: its [original_content] when
    that is a non-empty string. *)
Definition content_text (v : value) : option pystr :=
  match v with
  | VDict meta =>
      match content_of meta with
      | VStr (c :: s) => Some (c :: s)
      | _ => None
      end
  | _ => None
  end.

Fixpoint text_contents (l : list value) : list pystr :=
  match l with
  | [] => []
  | v :: l' =>
      match content_text v with
      | Some s => s :: text_contents l'
      | None => text_contents l'
      end
  end.





(* ================================================================== *)
(** * Worlds and replies used as examples *)

(** The three replies of the generation model for a selection and its
    context. *)
Definition reply_for (w : world) (t : template) (user_selection : pystr)
  (context : list value) : result response :=
  generate_content w (Prompt t user_selection (json_dumps (VList context))).

(** A world for the examples: one indexed section, a reranker that fails,
    and a generation model that fails on the enhancement prompt and answers
    the two others. *)
Definition example_world : world :=
  World
    (fun _ => Ok (Some [1 # 2; 1 # 3]%Q))
    (fun _ _ =>
       Ok (Some [[ VDict [ (original_content, VStr (str "alpha"));
                           (page_number, VInt 3) ] ]]))
    (fun _ => Raise (ServiceError 1))
    (fun p =>
       match prompt_template p with
       | ENHANCEMENT_PROMPT => Raise (ServiceError 503)
       | CONNECTION_PROMPT =>
           Ok (Response true (Ok (dq "{'connections': ['beta']}")))
       | CONTRADICTION_PROMPT =>
           Ok (Response true (Ok (dq "{'conflicts': [{'text':'x'}]}")))
       end).

(** A reply with six items under the expected key. *)
Definition six_enhancements : pystr :=
  dq "{'enhancements': ['a', 'b', 'c', 'd', 'e', 'f']}".


(** The reply of the alias example. *)
Definition conflicts_reply : pystr := dq "{'conflicts': [{'text':'x'}]}".


(** The content a returned record is compared by. *)
Definition record_content (v : value) : value :=
  match v with
  | VDict meta => content_of meta
  | _ => VNone
  end.


(** The requests of the fan-out for a context. *)
Definition generation_calls (user_selection : pystr) (context : list value)
  : list call :=
  match context with
  | [] => []
  | _ :: _ =>
      map (fun t =>
             CallGenerate
               (Prompt t user_selection (json_dumps (VList context))))
        [ENHANCEMENT_PROMPT; CONNECTION_PROMPT; CONTRADICTION_PROMPT]
  end.


(* ================================================================== *)
(** * The basic JSON extraction *)

Definition error_object (message : string) : value :=
  VDict [(str "error", VStr (str message))].

(** [extract_json_from_string(text)] *)
Definition extract_json_from_string (text : pystr) : value :=
  match re_search brace_pattern text with
  | None => error_object "No JSON object found in response."
  | Some json_str =>
      match json_loads json_str with
      | Ok parsed => parsed
      | Raise JSONDecodeError =>
          error_object "Failed to parse JSON from model response."
      | Raise _ => error_object "An unexpected error occurred."
      end
  end.

(* ================================================================== *)
(** * Indexing: the stored bounding box *)

(** The [bounding_box] entry of the metadata the indexing pipeline stores
    for a chunk:
    [json.dumps(chunk.get(k)) if chunk.get(k) else the text of an empty
    object]. *)
Definition index_bounding_box (chunk : dict) : value :=
  match dict_get bounding_box chunk with
  | Some box => if truthy box then VStr (json_dumps box) else VStr (str "{}")
  | None => VStr (str "{}")
  end.

(* ================================================================== *)
(** * Persona podcasts *)

(** [PERSONA_STYLES], in the order of the source. *)
Definition PERSONA_STYLES : list (pystr * pystr) :=
  [ (str "debater",
     str "The Host and Analyst should present opposing viewpoints or debate the nuances of the findings.");
    (str "investigator",
     str "The Host and Analyst should dig deep into the evidence, questioning assumptions and focusing on factual details.");
    (str "fundamentals",
     str "The Host and Analyst should start with the most basic, foundational concepts from the context and progressively build up to the user's selected topic.");
    (str "connections",
     str "The Host and Analyst should focus on drawing surprising connections and analogies between the selected topic and other concepts found in the context, even from different domains.") ].

(** [PERSONA_PODCAST_PROMPT] rendered, given by its four format fields;
    the context stands for its serialisation with [indent=2]. *)
Record podcast_prompt : Type := PodcastPrompt {
  podcast_persona : pystr;
  podcast_style_guide : pystr;
  podcast_user_selection : pystr;
  podcast_context_sections : list value
}.

(** A program of the podcast generation: a retrieval, which is a program of
    the four services, or a request to the generation model with a podcast
    prompt. *)
Inductive podcast_io (A : Type) : Type :=
| Done (a : A)
| Retrieve (m : io (list value)) (k : list value -> podcast_io A)
| GeneratePodcast (p : podcast_prompt) (k : result response -> podcast_io A).

Arguments Done {A} a.
Arguments Retrieve {A} m k.
Arguments GeneratePodcast {A} p k.

Fixpoint podcast_bind (A B : Type) (m : podcast_io A) (f : A -> podcast_io B)
  : podcast_io B :=
  match m with
  | Done a => f a
  | Retrieve r k => Retrieve r (fun x => podcast_bind (k x) f)
  | GeneratePodcast p k => GeneratePodcast p (fun x => podcast_bind (k x) f)
  end.

(** The services, and how the generation model answers a podcast prompt. *)
Record podcast_world : Type := PodcastWorld {
  services : world;
  generate_podcast_content : podcast_prompt -> result response
}.

Inductive podcast_call : Type :=
| CallService (c : call)
| CallGeneratePodcast (p : podcast_prompt).

Fixpoint run_podcast (A : Type) (w : podcast_world) (m : podcast_io A) : A :=
  match m with
  | Done a => a
  | Retrieve r k => run_podcast w (k (run (services w) r))
  | GeneratePodcast p k => run_podcast w (k (generate_podcast_content w p))
  end.

Fixpoint podcast_calls (A : Type) (w : podcast_world) (m : podcast_io A)
  : list podcast_call :=
  match m with
  | Done _ => []
  | Retrieve r k =>
      map CallService (calls (services w) r)
      ++ podcast_calls w (k (run (services w) r))
  | GeneratePodcast p k =>
      CallGeneratePodcast p
      :: podcast_calls w (k (generate_podcast_content w p))
  end.

(** [return persona, extract_podcast_conversation_from_response(empty,
    persona)] *)
Definition fallback_script (persona : pystr)
  : result (pystr * list pystr) :=
  match extract_podcast_conversation_from_response [] persona with
  | Ok conversation => Ok (persona, conversation)
  | Raise e => Raise e
  end.

(** The body of [_generate_single_podcast_script] after the generation
    call.  A reply without parts gives the fallback whether or not reading
    its block reason raises, since the handler of the exception returns the
    same. *)
Definition script_of_reply (reply : result response) (persona : pystr)
  : result (pystr * list pystr) :=
  match reply with
  | Raise _ => fallback_script persona
  | Ok r =>
      if negb (parts r) then fallback_script persona
      else
        match text_of r with
        | Raise _ => fallback_script persona
        | Ok text =>
            let response_text := strip text in
            if negb (truthy (VStr response_text))
               || (List.length response_text <? 50)%nat
            then fallback_script persona
            else
              match extract_podcast_conversation_from_response
                      response_text persona with
              | Ok conversation => Ok (persona, conversation)
              | Raise _ => fallback_script persona
              end
        end
  end.

(** [_generate_single_podcast_script(selection, persona, style_guide,
    context)] *)
Definition _generate_single_podcast_script
  (selection persona style_guide : pystr) (context : list value)
  : podcast_io (result (pystr * list pystr)) :=
  GeneratePodcast (PodcastPrompt persona style_guide selection context)
    (fun reply => Done (script_of_reply reply persona)).

(** [asyncio.gather] on the tasks: they are started in order; an exception
    of one of them is raised to the caller. *)
Fixpoint gather (A : Type) (tasks : list (podcast_io (result A)))
  : podcast_io (result (list A)) :=
  match tasks with
  | [] => Done (Ok [])
  | t :: tasks' =>
      podcast_bind t (fun r =>
        podcast_bind (gather tasks') (fun rs =>
          Done match r, rs with
               | Ok a, Ok l => Ok (a :: l)
               | Raise e, _ => Raise e
               | Ok _, Raise e => Raise e
               end))
  end.

Definition conversation_value (conversation : list pystr) : value :=
  VList (map VStr conversation).

Definition no_context_conversation : list pystr :=
  map str [ "Cannot generate a podcast without context.";
            "Please ensure your documents are properly indexed." ]%string.

(** [{persona: conversation for persona, conversation in results}] *)
Definition all_podcasts (results : list (pystr * list pystr)) : dict :=
  fold_left
    (fun d pc => dict_set (fst pc) (conversation_value (snd pc)) d)
    results [].

(** [generate_persona_podcast_async(selection)] *)
Definition generate_persona_podcast_async (selection : pystr)
  : podcast_io (result dict) :=
  Retrieve (retrieve_large_context_async selection) (fun context_sections =>
    if negb (truthy (VList context_sections)) then
      Done (Ok (all_podcasts
                  (map (fun ps => (fst ps, no_context_conversation))
                     PERSONA_STYLES)))
    else
      podcast_bind
        (gather
           (map (fun ps =>
                   _generate_single_podcast_script selection (fst ps) (snd ps)
                     context_sections)
              PERSONA_STYLES))
        (fun results =>
           Done match results with
                | Ok l => Ok (all_podcasts l)
                | Raise e => Raise e
                end)).

(* ================================================================== *)
(** * The audio endpoint: turns and voices *)

(** A turn handed to the speech synthesis: speaker, text and voice. *)
Definition turn : Type := (pystr * value * pystr)%type.

(** The loop of [generate_podcast_endpoint] over [enumerate(data)], from
    the index [idx] on. *)
Fixpoint turns_from (idx : nat) (data : list value) : list turn :=
  match data with
  | [] => []
  | text :: data' =>
      let voice := if (idx mod 2 =? 0)%nat then str "fable" else str "nova" in
      let speaker :=
        if str_eqb voice (str "fable") then str "Speaker" else str "Host" in
      (speaker, text, voice) :: turns_from (S idx) data'
  end.

(** The conversation [generate_podcast_endpoint] builds from the body of
    the request; [None] stands for the answer with status 400. *)
Definition endpoint_conversation (data : value) : option (list turn) :=
  if negb (truthy data) then None
  else
    match data with
    | VList items => Some (turns_from 0 items)
    | _ => None
    end.

(* ================================================================== *)
(** * Serialisation: what is written and read back *)

(** A Unicode scalar value: a code point that is not a surrogate. *)
Definition scalar (c : N) : bool :=
  (c <? 55296) || in_range 57344 1114111 c.

Definition scalar_str (s : pystr) : bool := forallb scalar s.

(** What can follow a value in a serialised text: nothing, a comma, or a
    closing bracket or brace. *)
Definition delimited (rest : pystr) : bool :=
  match rest with
  | [] => true
  | c :: _ => (c =? 44) || (c =? 93) || (c =? 125)
  end.

(** The value of a numeral with one more digit. *)
Definition digits_step (acc : Z) (c : N) : Z := (10 * acc + Z.of_N (c - 48))%Z.

(** A literal [json.loads] reads as a double equal to it. *)
Definition float_literal (lit : pystr) : bool :=
  match parse_value 1 lit with
  | Some (VFloat l, []) => str_eqb l lit
  | _ => false
  end.

(** No key occurs twice. *)
Fixpoint keys_unique (d : dict) : bool :=
  match d with
  | [] => true
  | (k, _) :: d' => negb (dict_mem k d') && keys_unique d'
  end.

(** The values [json.dumps] writes so that [json.loads] reads them back:
    strings and keys made of Unicode scalar values, no key twice in a
    mapping, and doubles whose literal reads as itself. *)
Fixpoint serialisable (v : value) : bool :=
  match v with
  | VNone | VBool _ | VInt _ => true
  | VFloat lit => float_literal lit
  | VStr s => scalar_str s
  | VList l => forallb serialisable l
  | VDict d =>
      keys_unique d
      && forallb (fun kv : pystr * value =>
                    let (k, x) := kv in scalar_str k && serialisable x) d
  end.

(** Induction on values, with the items of a list and the values of a
    mapping as premises. *)
Fixpoint value_nested_ind (P : value -> Prop)
  (HNone : P VNone) (HBool : forall b, P (VBool b))
  (HInt : forall z, P (VInt z)) (HFloat : forall lit, P (VFloat lit))
  (HStr : forall s, P (VStr s))
  (HList : forall l, Forall P l -> P (VList l))
  (HDict : forall d, Forall (fun kv => P (snd kv)) d -> P (VDict d))
  (v : value) {struct v} : P v :=
  let rec_ := @value_nested_ind P HNone HBool HInt HFloat HStr HList HDict in
  match v with
  | VNone => HNone
  | VBool b => HBool b
  | VInt z => HInt z
  | VFloat lit => HFloat lit
  | VStr s => HStr s
  | VList l =>
      HList l
        ((fix items (l : list value) : Forall P l :=
            match l with
            | [] => Forall_nil P
            | x :: l' => Forall_cons x (rec_ x) (items l')
            end) l)
  | VDict d =>
      HDict d
        ((fix pairs (d : list (pystr * value))
            : Forall (fun kv => P (snd kv)) d :=
            match d with
            | [] => Forall_nil _
            | kv :: d' => Forall_cons kv (rec_ (snd kv)) (pairs d')
            end) d)
  end.

(** A value is read back from its serialisation in front of any delimited
    text, with enough fuel. *)
Definition reads_back (v : value) : Prop :=
  exists fuel, forall fuel' rest,
    (fuel <= fuel')%nat -> delimited rest = true ->
    parse_value fuel' (json_dumps v ++ rest) = Some (v, rest).

(** The first character of a serialisation starts a value. *)
Definition value_start (c : N) : bool :=
  negb (is_json_ws c) && negb (c =? 93) && negb (c =? 125)
  && negb (c =? 44).

(** One entry of a serialised mapping. *)
Definition dumps_pair (kv : pystr * value) : pystr :=
  let (k, x) := kv in encode_string k ++ str ": " ++ json_dumps x.

(* ================================================================== *)
(** * Further notions used in the statements *)

(** The list the insight extraction serialises again when the expected key
    gives nothing: the one under the first alternative key with a non-empty
    list, else the first non-empty list of the object. *)
Definition fallback_list (parsed_json : dict) (expected_key : pystr)
  : option (list value) :=
  match first_alternative (alternative_keys expected_key) parsed_json with
  | Some alt_insights => Some alt_insights
  | None => first_list_entry parsed_json
  end.

(** The box a retrieved record should carry for a chunk. *)
Definition chunk_box (chunk : dict) : value :=
  match dict_get bounding_box chunk with
  | Some box => if truthy box then box else VDict []
  | None => VDict []
  end.

(** The conversation a reply gives for a persona. *)
Definition script_conversation (reply : result response) (persona : pystr)
  : list pystr :=
  match script_of_reply reply persona with
  | Ok (_, conversation) => conversation
  | Raise _ => []
  end.

(** A reply the script generation does not use: an exception, a reply
    without parts, a text that cannot be read or that is shorter than 50
    characters once stripped. *)
Definition unusable_reply (reply : result response) : bool :=
  match reply with
  | Raise _ => true
  | Ok r =>
      negb (parts r)
      || match text_of r with
         | Raise _ => true
         | Ok text => (List.length (strip text) <? 50)%nat
         end
  end.

(** The prompt of a persona. *)
Definition persona_prompt (selection : pystr) (context : list value)
  (ps : pystr * pystr) : podcast_prompt :=
  PodcastPrompt (fst ps) (snd ps) selection context.

(** The canned conversation of a persona. *)
Definition canned_conversation (persona : pystr) : list pystr :=
  get_conversation fallback_conversations persona generic_fallback.

(** The text and the voice of a turn. *)
Definition turn_text (t : turn) : value := snd (fst t).
Definition turn_voice (t : turn) : pystr := snd t.
Definition turn_speaker (t : turn) : pystr := fst (fst t).

(** The number of turns spoken with a voice. *)
Definition voice_count (voice : pystr) (turns : list turn) : nat :=
  List.length (filter (fun t => str_eqb (turn_voice t) voice) turns).

(* ================================================================== *)
(** * Further worlds and replies used as examples *)

(** A reply whose list is under a key that is neither expected nor an
    alternative. *)
Definition wrapped_items_reply : pystr := dq "{'items': ['a', 'b']}".

(** A reply with the expected key and a list of numbers. *)
Definition numbers_reply : pystr := dq "{'contradictions': [1, 2]}".

(** A chunk as the parser leaves it, with the box of its section. *)
Definition example_chunk : dict :=
  [ (str "content", VStr (str "alpha"));
    (bounding_box,
     VDict [ (str "x0", VFloat (str "72.0"));
             (str "y0", VFloat (str "100.5"));
             (str "x1", VFloat (str "540.25"));
             (str "y1", VInt 700) ]) ].

(** The record the example services return for every selection. *)
Definition alpha_record : value :=
  VDict [ (original_content, VStr (str "alpha"));
          (page_number, VInt 3);
          (document_name, VStr unknown_document);
          (bounding_box, VDict []) ].

(** A world in which nothing is found and the model is down. *)
Definition silent_world : podcast_world :=
  PodcastWorld
    (World (fun _ => Ok None) (fun _ _ => Ok None)
       (fun _ => Raise (ServiceError 1)) (fun _ => Raise (ServiceError 503)))
    (fun _ => Raise (ServiceError 503)).

(** A world with one indexed section, in which the model answers the
    debater with a script of four lines, is blocked for the investigator
    and fails for the others. *)
Definition podcast_example_world : podcast_world :=
  PodcastWorld example_world
    (fun p =>
       if str_eqb (podcast_persona p) (str "debater") then
         Ok (Response true
               (Ok (dq "  {'conversation': ['Welcome to the show.', 'Glad to be here.', 'Let us begin then.', 'Yes, let us begin.']}  ")))
       else if str_eqb (podcast_persona p) (str "investigator") then
         Ok (Response false (Raise AttributeError))
       else Raise (ServiceError 503)).

(* ================================================================== *)
(** * Strings and dictionaries: basic facts *)

Lemma str_eqb_eq (a b : pystr) : str_eqb a b = true <-> a = b.
Proof.
  revert b; induction a as [|x a IH]; intros [|y b]; simpl;
    try (split; [discriminate | congruence]); try tauto.
  rewrite andb_true_iff, N.eqb_eq, IH.
  split; [intros [-> ->]; reflexivity | intros H; inversion H; auto].
Qed.

Lemma str_eqb_refl (a : pystr) : str_eqb a a = true.
Proof. apply str_eqb_eq; reflexivity. Qed.

Lemma str_eqb_neq (a b : pystr) : str_eqb a b = false <-> a <> b.
Proof.
  rewrite <- str_eqb_eq. destruct (str_eqb a b); split; congruence.
Qed.

Lemma dict_get_set_same (k : pystr) (v : value) (d : dict) :
  dict_get k (dict_set k v d) = Some v.
Proof.
  induction d as [|[k' v'] d IH]; simpl.
  - now rewrite str_eqb_refl.
  - destruct (str_eqb k k') eqn:E; simpl; rewrite E; auto.
Qed.

Lemma dict_get_set_other (k k' : pystr) (v : value) (d : dict) :
  k <> k' -> dict_get k (dict_set k' v d) = dict_get k d.
Proof.
  intros Hne. induction d as [|[k0 v0] d IH]; simpl.
  - apply str_eqb_neq in Hne. now rewrite Hne.
  - destruct (str_eqb k' k0) eqn:E; simpl.
    + apply str_eqb_eq in E; subst k0.
      apply str_eqb_neq in Hne. now rewrite Hne.
    + destruct (str_eqb k k0); auto.
Qed.

Lemma dict_set_present (k : pystr) (v : value) (d : dict) :
  dict_get k d = Some v -> dict_set k v d = d.
Proof.
  induction d as [|[k0 v0] d IH]; simpl; [discriminate|].
  destruct (str_eqb k k0) eqn:E.
  - intros H; inversion H; reflexivity.
  - intros H; rewrite IH; auto.
Qed.

Lemma setdefault_present (k : pystr) (v x : value) (d : dict) :
  dict_get k d = Some x -> setdefault k v d = d.
Proof. intros H. unfold setdefault, dict_mem. now rewrite H. Qed.

Lemma dict_get_setdefault_same (k : pystr) (v : value) (d : dict) :
  exists x, dict_get k (setdefault k v d) = Some x.
Proof.
  unfold setdefault, dict_mem. destruct (dict_get k d) eqn:E.
  - eauto.
  - exists v. apply dict_get_set_same.
Qed.

Lemma dict_get_setdefault_other (k k' : pystr) (v : value) (d : dict) :
  k <> k' -> dict_get k (setdefault k' v d) = dict_get k d.
Proof.
  intros H. unfold setdefault. destruct (dict_mem k' d); auto.
  now apply dict_get_set_other.
Qed.

Lemma all_str_length (l : list value) (ss : list pystr) :
  all_str l = Some ss -> List.length ss = List.length l.
Proof.
  revert ss; induction l as [|v l IH]; simpl; intros ss H.
  - inversion H; reflexivity.
  - destruct v; try discriminate.
    destruct (all_str l); try discriminate.
    inversion H; simpl; f_equal; auto.
Qed.

(* ================================================================== *)
(** * The brace pattern *)

Lemma backtrack_found (A : Type) (try : nat -> option A) (lo extra k : nat)
  (r : A) :
  (lo <= k <= lo + extra)%nat ->
  try k = Some r ->
  (forall j, (k < j <= lo + extra)%nat -> try j = None) ->
  backtrack try lo extra = Some r.
Proof.
  revert k r. induction extra as [|e IH]; intros k r Hk Hr Hn; simpl.
  - assert (k = lo + 0)%nat as <- by lia. now rewrite Hr.
  - destruct (Nat.eq_dec k (lo + S e)) as [->|Hne].
    + now rewrite Hr.
    + rewrite (Hn (lo + S e)%nat) by lia.
      apply (IH k r); [lia | assumption |].
      intros j Hj. apply Hn. lia.
Qed.

Lemma backtrack_none (A : Type) (try : nat -> option A) (lo extra : nat) :
  (forall j, (lo <= j <= lo + extra)%nat -> try j = None) ->
  backtrack try lo extra = None.
Proof.
  induction extra as [|e IH]; intros Hn; simpl.
  - now rewrite Hn by lia.
  - rewrite Hn by lia. apply IH. intros j Hj. apply Hn. lia.
Qed.

Lemma backtrack_some (A : Type) (try : nat -> option A) (lo extra : nat)
  (r : A) :
  backtrack try lo extra = Some r ->
  exists k, (lo <= k <= lo + extra)%nat /\ try k = Some r.
Proof.
  induction extra as [|e IH]; simpl.
  - destruct (try (lo + 0)%nat) eqn:E; [|discriminate].
    intros H; inversion H; subst. exists (lo + 0)%nat. split; [lia|auto].
  - destruct (try (lo + S e)%nat) eqn:E.
    + intros H; inversion H; subst. exists (lo + S e)%nat. split; [lia|auto].
    + intros H. destruct (IH H) as (k & Hk & Hr). exists k. split; [lia|auto].
Qed.

Lemma span_any (s : pystr) : span any_chr s = List.length s.
Proof. induction s; simpl; auto. Qed.

(** The closing brace, last item of the pattern. *)
Lemma match_close (s : pystr) :
  match_here [Atom (chr_is 125) One true] s =
  match s with
  | c :: _ => if c =? 125 then Some (1%nat, [c]) else None
  | [] => None
  end.
Proof.
  destruct s as [|c s]; simpl; [reflexivity|].
  unfold chr_is. destruct (c =? 125); reflexivity.
Qed.

(** The pattern at the start of a text: an opening brace, then the longest
    stretch that ends with a closing brace. *)
Lemma match_brace_unfold (s : pystr) :
  match_here brace_pattern s =
  match s with
  | c :: s1 =>
      if c =? 123 then
        match
          backtrack
            (fun k =>
               match match_here [Atom (chr_is 125) One true] (skipn k s1) with
               | Some (n, g) => Some ((k + n)%nat, firstn k s1 ++ g)
               | None => None
               end) 0 (List.length s1)
        with
        | Some (n, g) => Some (S n, c :: g)
        | None => None
        end
      else None
  | [] => None
  end.
Proof.
  destruct s as [|c s1]; [reflexivity|].
  unfold brace_pattern.
  cbn [match_here cls qnt grp span]. unfold chr_is at 1 2.
  destruct (c =? 123); [|reflexivity].
  cbn [Nat.leb skipn firstn]. rewrite span_any.
  reflexivity.
Qed.

Lemma match_brace_head (s : pystr) (n : nat) (g : pystr) :
  match_here brace_pattern s = Some (n, g) ->
  exists s1, s = 123 :: s1 /\ (1 <= n)%nat.
Proof.
  rewrite match_brace_unfold. destruct s as [|c s1]; [discriminate|].
  destruct (c =? 123) eqn:E; [|discriminate].
  apply N.eqb_eq in E; subst c.
  destruct (backtrack _ _ _) as [[m g']|]; [|discriminate].
  intros H; inversion H; subst. exists s1. split; [reflexivity|lia].
Qed.

(** The span found by [re.search] starts with a brace. *)
Lemma re_search_brace_head (text json_str : pystr) :
  re_search brace_pattern text = Some json_str ->
  exists rest, json_str = 123 :: rest.
Proof.
  induction text as [|c text IH].
  - cbn [re_search]. rewrite match_brace_unfold. discriminate.
  - cbn [re_search]. destruct (match_here brace_pattern (c :: text)) as [[n g]|] eqn:E.
    + apply match_brace_head in E. destruct E as (s1 & Hs & Hn).
      inversion Hs; subst. intros H; inversion H; subst.
      destruct n as [|n]; [lia|]. simpl. eauto.
    + exact IH.
Qed.

Lemma skipn_length_app (A : Type) (b l : list A) :
  skipn (List.length b) (b ++ l) = l.
Proof. induction b; simpl; auto. Qed.

Lemma firstn_length_app (A : Type) (b l : list A) :
  firstn (List.length b) (b ++ l) = b.
Proof. induction b; simpl; f_equal; auto. Qed.

Lemma skipn_past_app (A : Type) (b l : list A) (j : nat) :
  (List.length b <= j)%nat ->
  skipn j (b ++ l) = skipn (j - List.length b) l.
Proof.
  revert j; induction b as [|x b IH]; intros j Hj; simpl in *.
  - now rewrite Nat.sub_0_r.
  - destruct j as [|j]; [lia|]. simpl. apply IH. lia.
Qed.

Lemma skipn_head_in (A : Type) (l : list A) (j : nat) (x : A) (t : list A) :
  skipn j l = x :: t -> In x l.
Proof.
  revert j; induction l as [|y l IH]; intros [|j]; simpl; try discriminate.
  - intros H; inversion H; auto.
  - intros H; right; eapply IH; eauto.
Qed.

(** No closing brace in [s]: the last item of the pattern matches nowhere
    in it. *)
Lemma match_close_none (s : pystr) (j : nat) :
  ~ In 125 s ->
  match_here [Atom (chr_is 125) One true] (skipn j s) = None.
Proof.
  intros Hn. rewrite match_close.
  destruct (skipn j s) as [|x t] eqn:E; [reflexivity|].
  destruct (x =? 125) eqn:Ex; [|reflexivity].
  apply N.eqb_eq in Ex; subst x. exfalso. apply Hn.
  eapply skipn_head_in; eauto.
Qed.

(** At an opening brace the match runs to the last closing brace. *)
Lemma match_brace_span (b c : pystr) :
  ~ In 125 c ->
  match_here brace_pattern (123 :: b ++ 125 :: c) =
  Some (S (List.length b + 1), 123 :: b ++ [125]).
Proof.
  intros Hc. rewrite match_brace_unfold. rewrite N.eqb_refl.
  erewrite backtrack_found
    with (k := List.length b) (r := ((List.length b + 1)%nat, b ++ [125])).
  - reflexivity.
  - rewrite length_app. simpl. lia.
  - rewrite skipn_length_app, match_close, N.eqb_refl, firstn_length_app.
    reflexivity.
  - intros j Hj.
    rewrite skipn_past_app by lia.
    destruct (j - List.length b)%nat as [|m] eqn:Em; [lia|].
    cbn [skipn]. now rewrite match_close_none.
Qed.

Lemma match_brace_other (c : N) (s : pystr) :
  c <> 123 -> match_here brace_pattern (c :: s) = None.
Proof.
  intros H. rewrite match_brace_unfold.
  apply N.eqb_neq in H. now rewrite H.
Qed.

Lemma match_brace_unclosed (s : pystr) :
  ~ In 125 s -> match_here brace_pattern (123 :: s) = None.
Proof.
  intros H. rewrite match_brace_unfold, N.eqb_refl.
  rewrite backtrack_none; [reflexivity|].
  intros j _. now rewrite match_close_none.
Qed.

(** [re.search] with the brace pattern: from the first opening brace to the
    last closing brace. *)
Lemma re_search_brace_span (a b c : pystr) :
  ~ In 123 a -> ~ In 125 c ->
  re_search brace_pattern (a ++ 123 :: b ++ 125 :: c) =
  Some (123 :: b ++ [125]).
Proof.
  intros Ha Hc. induction a as [|x a IH].
  - cbn [app re_search]. rewrite match_brace_span by assumption.
    cbn [firstn]. f_equal. f_equal.
    replace (List.length b + 1)%nat with (List.length (b ++ [125]))
      by (rewrite length_app; reflexivity).
    rewrite <- (app_nil_r (b ++ [125])) at 2.
    replace (b ++ 125 :: c) with ((b ++ [125]) ++ c)
      by (rewrite <- app_assoc; reflexivity).
    rewrite firstn_length_app. now rewrite app_nil_r.
  - cbn [app re_search]. rewrite match_brace_other.
    + apply IH. intros H; apply Ha; right; exact H.
    + intros ->. apply Ha. left; reflexivity.
Qed.

(** Without a closing brace after an opening one there is no match. *)
Lemma re_search_brace_none (text : pystr) :
  (forall a b c, text <> a ++ 123 :: b ++ 125 :: c) ->
  re_search brace_pattern text = None.
Proof.
  induction text as [|x text IH]; intros H.
  - cbn [re_search]. rewrite match_brace_unfold. reflexivity.
  - cbn [re_search].
    assert (Hrec : re_search brace_pattern text = None).
    { apply IH. intros a b c ->. apply (H (x :: a) b c). reflexivity. }
    destruct (N.eq_dec x 123) as [->|Hx].
    + rewrite match_brace_unclosed; [exact Hrec|].
      intros Hin. apply in_split in Hin. destruct Hin as (b & c & ->).
      apply (H [] b c). reflexivity.
    + rewrite match_brace_other by assumption. exact Hrec.
Qed.

(* ================================================================== *)
(** * Decoding a text that starts with a brace *)

Ltac break_match_hyp H :=
  match type of H with
  | context [match ?x with _ => _ end] => destruct x eqn:?; try discriminate
  | context [if ?x then _ else _] => destruct x eqn:?; try discriminate
  end.

Lemma parse_pairs_dict (fuel : nat) :
  forall s acc v rest,
    parse_pairs fuel s acc = Some (v, rest) -> exists d, v = VDict d.
Proof.
  induction fuel as [|f IH]; intros s acc v rest H; [discriminate|].
  cbn [parse_pairs] in H.
  repeat break_match_hyp H.
  - inversion H; eauto.
  - eapply IH; eauto.
Qed.

Lemma parse_value_brace (f : nat) (s : pystr) :
  parse_value (S f) (123 :: s) =
  match skip_ws s with
  | c1 :: s2 =>
      if c1 =? 125 then Some (VDict [], s2) else parse_pairs f (c1 :: s2) []
  | [] => None
  end.
Proof. reflexivity. Qed.

(** [json.loads] of a text that starts with an opening brace returns a
    [dict] or raises. *)
Lemma loads_brace_dict (s : pystr) (v : value) :
  json_loads (123 :: s) = Ok v -> exists d, v = VDict d.
Proof.
  unfold json_loads.
  replace (skip_ws (123 :: s)) with (123 :: s) by reflexivity.
  set (n := List.length (123 :: s)).
  replace (2 * n + 2)%nat with (S (2 * n + 1)) by lia.
  rewrite parse_value_brace.
  destruct (match skip_ws s with [] => None | _ :: _ => _ end)
    as [[v' rest]|] eqn:E; [|discriminate].
  assert (Hd : exists d, v' = VDict d).
  { destruct (skip_ws s) as [|c1 s2]; [discriminate|].
    destruct (c1 =? 125).
    - inversion E; eauto.
    - eapply parse_pairs_dict; eauto. }
  destruct (skip_ws rest); intros H; inversion H; subst; exact Hd.
Qed.

(** Every failure of [json.loads] is a [JSONDecodeError]. *)
Lemma loads_raise (s : pystr) (e : exn) :
  json_loads s = Raise e -> e = JSONDecodeError.
Proof.
  unfold json_loads. intros H.
  repeat break_match_hyp H; inversion H; reflexivity.
Qed.

(** The JSON tier in terms of [parsed_reply]. *)
Lemma podcast_unfold (text persona : pystr) :
  extract_podcast_conversation_from_response text persona =
  Ok match parsed_reply text with
     | Some parsed_json =>
         match conversation_from_json parsed_json with
         | Some conversation => conversation
         | None => conversation_from_text text persona
         end
     | None => conversation_from_text text persona
     end.
Proof.
  unfold extract_podcast_conversation_from_response, parsed_reply.
  destruct (re_search brace_pattern text) as [js|] eqn:Es; [|reflexivity].
  apply re_search_brace_head in Es. destruct Es as (rest & ->).
  destruct (json_loads (123 :: rest)) as [v|e] eqn:El.
  - apply loads_brace_dict in El. destruct El as (d & ->).
    destruct (conversation_from_json d); reflexivity.
  - apply loads_raise in El. subst e. reflexivity.
Qed.

(* ================================================================== *)
(** * The decoder and its fuel

    Every call of the decoder consumes input, so the fuel [json_loads]
    gives, twice the length of the text and two, is never what makes it
    fail. *)

Lemma skip_ws_length (s : pystr) :
  (List.length (skip_ws s) <= List.length s)%nat.
Proof.
  induction s as [|c s IH]; simpl; [lia|].
  destruct (is_json_ws c); simpl; lia.
Qed.

Lemma push_some (c : N) (r : option (pystr * pystr)) (t rest : pystr) :
  push c r = Some (t, rest) -> exists t', r = Some (t', rest).
Proof.
  destruct r as [[t' rest']|]; simpl; [|discriminate].
  intros H; inversion H; subst; eauto.
Qed.

Lemma scanstring_length (n : nat) :
  forall s t rest,
    (List.length s <= n)%nat ->
    scanstring s = Some (t, rest) ->
    (List.length rest < List.length s)%nat.
Proof.
  induction n as [|n IH]; intros s t rest Hn H.
  - destruct s; [discriminate|simpl in Hn; lia].
  - destruct s as [|c s1]; [discriminate|].
    cbn [scanstring] in H. cbn [List.length] in *.
    repeat break_match_hyp H;
      try (inversion H; subst; cbn [List.length]; lia);
      try (apply push_some in H; destruct H as (t' & H);
           apply IH in H; cbn [List.length] in *; lia).
Qed.

Lemma starts_with_length (p s rest : pystr) :
  starts_with p s = Some rest ->
  List.length s = (List.length p + List.length rest)%nat.
Proof.
  revert s; induction p as [|x p IH]; intros [|y s]; simpl;
    try discriminate.
  - intros H; inversion H; reflexivity.
  - intros H; inversion H; reflexivity.
  - destruct (x =? y); [|discriminate]. intros H. f_equal. auto.
Qed.

Lemma keyword_length (kw : string) (v v' : value) (s rest : pystr) :
  kw <> ""%string ->
  keyword kw v s = Some (v', rest) ->
  (List.length rest < List.length s)%nat.
Proof.
  intros Hk. unfold keyword.
  destruct (starts_with (str kw) s) as [r|] eqn:E; [|discriminate].
  intros H; inversion H; subst. apply starts_with_length in E.
  destruct kw; [congruence|]. cbn in E. lia.
Qed.

Lemma match_number_length (s : pystr) (v : value) (rest : pystr) :
  match_number s = Some (v, rest) ->
  (List.length rest < List.length s)%nat.
Proof.
  unfold match_number.
  set (neg := match s with c :: _ => c =? 45 | [] => false end).
  set (body := if neg then tl s else s).
  destruct (int_part_len body =? 0)%nat eqn:E0; [discriminate|].
  apply Nat.eqb_neq in E0.
  assert (Hs : s <> []).
  { intros ->. subst body neg. cbn in E0. congruence. }
  intros H.
  assert (Hr : exists k, (1 <= k)%nat /\ rest = skipn k s).
  { destruct ((frac_len _ =? 0)%nat && (exp_len _ =? 0)%nat);
      inversion H; subst; eexists; (split; [|reflexivity]); lia. }
  destruct Hr as (k & Hk & ->).
  rewrite length_skipn. destruct s; [congruence|]. cbn [List.length]. lia.
Qed.

Ltac length_facts IHv IHi IHp :=
  repeat match goal with
    | E : skip_ws ?x = _ |- _ =>
        let H := fresh "Hws" in
        pose proof (skip_ws_length x) as H; rewrite E in H; clear E
    | E : scanstring ?x = Some (_, _) |- _ =>
        apply (@scanstring_length (List.length x)) in E; [|apply le_n]
    | E : parse_value _ _ = Some (_, _) |- _ => apply IHv in E
    | E : parse_items _ _ _ = Some (_, _) |- _ => apply IHi in E
    | E : parse_pairs _ _ _ = Some (_, _) |- _ => apply IHp in E
    | E : keyword _ _ _ = Some (_, _) |- _ =>
        apply keyword_length in E; [|discriminate]
    | E : match_number _ = Some (_, _) |- _ => apply match_number_length in E
    end;
  repeat match goal with
    | H : context [List.length (skip_ws ?x)] |- _ =>
        lazymatch goal with
        | _ : (List.length (skip_ws x) <= List.length x)%nat |- _ => fail
        | _ => pose proof (skip_ws_length x)
        end
    end.

Lemma parse_length (fuel : nat) :
  (forall s v rest, parse_value fuel s = Some (v, rest) ->
     (List.length rest < List.length s)%nat)
  /\ (forall s acc v rest, parse_items fuel s acc = Some (v, rest) ->
        (List.length rest < List.length s)%nat)
  /\ (forall s acc v rest, parse_pairs fuel s acc = Some (v, rest) ->
        (List.length rest < List.length s)%nat).
Proof.
  induction fuel as [|f (IHv & IHi & IHp)];
    [repeat split; intros; discriminate|].
  repeat split.
  - intros s v rest H. cbn [parse_value] in H.
    repeat break_match_hyp H; try (inversion H; subst);
      length_facts IHv IHi IHp; cbn [List.length] in *; lia.
  - intros s acc v rest H. cbn [parse_items] in H.
    repeat break_match_hyp H; try (inversion H; subst);
      length_facts IHv IHi IHp; cbn [List.length] in *; lia.
  - intros s acc v rest H. cbn [parse_pairs] in H.
    repeat break_match_hyp H; try (inversion H; subst);
      length_facts IHv IHi IHp; cbn [List.length] in *; lia.
Qed.

Ltac bound :=
  repeat match goal with
    | |- context [List.length (skip_ws ?x)] =>
        lazymatch goal with
        | _ : (List.length (skip_ws x) <= List.length x)%nat |- _ => fail
        | _ => pose proof (skip_ws_length x)
        end
    | _ : context [List.length (skip_ws ?x)] |- _ =>
        lazymatch goal with
        | _ : (List.length (skip_ws x) <= List.length x)%nat |- _ => fail
        | _ => pose proof (skip_ws_length x)
        end
    end;
  cbn [List.length] in *; lia.

(** After a case split of the run with the larger fuel: record what the
    split says about lengths, and replay a nested call in the goal. *)
Ltac replay PL IHv IHi IHp :=
  repeat match goal with
    | E : skip_ws ?x = _ |- _ =>
        let H := fresh "Hws" in
        pose proof (skip_ws_length x) as H; rewrite E in H; clear E
    | E : scanstring ?x = Some (_, _) |- _ =>
        apply (@scanstring_length (List.length x)) in E; [|apply le_n]
    | E : parse_value _ ?x = Some (?v, ?r) |- _ =>
        let L := fresh "L" in
        pose proof (proj1 PL _ _ _ E) as L;
        erewrite (IHv _ x (v, r)); [|bound|exact E]; clear E
    end.

Lemma parse_mono (fuel : nat) :
  (forall fuel' s r, (fuel <= fuel')%nat ->
     parse_value fuel s = Some r -> parse_value fuel' s = Some r)
  /\ (forall fuel' s acc r, (fuel <= fuel')%nat ->
        parse_items fuel s acc = Some r -> parse_items fuel' s acc = Some r)
  /\ (forall fuel' s acc r, (fuel <= fuel')%nat ->
        parse_pairs fuel s acc = Some r -> parse_pairs fuel' s acc = Some r).
Proof.
  induction fuel as [|f (IHv & IHi & IHp)];
    [repeat split; intros; discriminate|].
  repeat split.
  - intros [|f'] s r Hle H; [lia|]. apply le_S_n in Hle.
    cbn [parse_value] in H |- *.
    repeat break_match_hyp H; auto.
  - intros [|f'] s acc r Hle H; [lia|]. apply le_S_n in Hle.
    cbn [parse_items] in H |- *.
    destruct (parse_value f s) as [[v s1]|] eqn:E; [|discriminate].
    rewrite (IHv f' s (v, s1) Hle E).
    repeat break_match_hyp H; auto.
  - intros [|f'] s acc r Hle H; [lia|]. apply le_S_n in Hle.
    cbn [parse_pairs] in H |- *.
    repeat (break_match_hyp H;
            try match goal with
              | E : parse_value f ?x = Some ?p |- _ =>
                  rewrite (IHv f' x p Hle E); clear E
              end); auto.
Qed.

Lemma parse_enough (fuel' : nat) :
  (forall fuel s r, (2 * List.length s + 1 <= fuel)%nat ->
     parse_value fuel' s = Some r -> parse_value fuel s = Some r)
  /\ (forall fuel s acc r, (2 * List.length s + 2 <= fuel)%nat ->
        parse_items fuel' s acc = Some r -> parse_items fuel s acc = Some r)
  /\ (forall fuel s acc r, (2 * List.length s + 2 <= fuel)%nat ->
        parse_pairs fuel' s acc = Some r -> parse_pairs fuel s acc = Some r).
Proof.
  induction fuel' as [|f' (IHv & IHi & IHp)];
    [repeat split; intros; discriminate|].
  pose proof (parse_length f') as PL.
  repeat split.
  - intros [|f] s r Hle H; [lia|].
    cbn [parse_value] in H |- *.
    repeat (break_match_hyp H; replay PL IHv IHi IHp); auto.
    + apply IHp; [bound|exact H].
    + apply IHi; [bound|exact H].
  - intros [|f] s acc r Hle H; [lia|].
    cbn [parse_items] in H |- *.
    repeat (break_match_hyp H; replay PL IHv IHi IHp); auto.
    apply IHi; [bound|exact H].
  - intros [|f] s acc r Hle H; [lia|].
    cbn [parse_pairs] in H |- *.
    repeat (break_match_hyp H; replay PL IHv IHi IHp); auto.
    apply IHp; [bound|exact H].
Qed.

(** The fuel [json_loads] gives is enough: more fuel changes nothing. *)
Lemma json_loads_fuel (s : pystr) (fuel : nat) :
  (2 * List.length s + 2 <= fuel)%nat ->
  parse_value fuel (skip_ws s)
  = parse_value (2 * List.length s + 2) (skip_ws s).
Proof.
  intros Hle. pose proof (skip_ws_length s) as Hws.
  destruct (parse_value fuel (skip_ws s)) as [r|] eqn:E.
  - symmetry. eapply (proj1 (parse_enough fuel)); [lia|exact E].
  - destruct (parse_value (2 * List.length s + 2) (skip_ws s)) as [r|] eqn:E';
      [|reflexivity].
    apply (proj1 (parse_mono _) fuel) in E'; [congruence|exact Hle].
Qed.

(* ================================================================== *)
(** * Conversations: length and parity *)

Lemma length_removelast (A : Type) (l : list A) :
  List.length (removelast l) = pred (List.length l).
Proof.
  induction l as [|x l IH]; [reflexivity|].
  destruct l as [|y l]; [reflexivity|].
  change (removelast (x :: y :: l)) with (x :: removelast (y :: l)).
  cbn [List.length]. rewrite IH. reflexivity.
Qed.

Lemma removelast_parity (A : Type) (l : list A) :
  (4 <= List.length l)%nat ->
  Nat.even (List.length l) = false ->
  Nat.even (List.length (removelast l)) = true
  /\ (4 <= List.length (removelast l))%nat.
Proof.
  intros Hlen Hodd. rewrite length_removelast.
  destruct (List.length l) as [|n] eqn:E; [lia|].
  cbn [pred]. rewrite Nat.even_succ in Hodd.
  rewrite <- Nat.negb_even in Hodd.
  destruct (Nat.even n) eqn:En; [|discriminate].
  split; [reflexivity|].
  destruct (Nat.eq_dec n 3) as [->|]; [discriminate|lia].
Qed.

Lemma trim_even_parity (A : Type) (l : list A) :
  (4 <= List.length l)%nat ->
  Nat.even (List.length (trim_even l)) = true
  /\ (4 <= List.length (trim_even l))%nat.
Proof.
  intros H. unfold trim_even.
  destruct (Nat.even (List.length l)) eqn:E; [auto|].
  now apply removelast_parity.
Qed.


Lemma expected_conversation_parity (v : value) (c : list pystr) :
  expected_conversation v = Some c ->
  Nat.even (List.length c) = true /\ (4 <= List.length c)%nat.
Proof.
  unfold expected_conversation.
  destruct v; try discriminate.
  destruct (all_str l) as [lines|]; [|discriminate].
  destruct (4 <=? List.length lines)%nat eqn:E4; [|discriminate].
  apply Nat.leb_le in E4.
  destruct (Nat.even (List.length lines)) eqn:Ev; intros H; inversion H; subst.
  - auto.
  - now apply removelast_parity.
Qed.

Lemma alternative_conversation_first (keys : list pystr) (d : dict) :
  alternative_conversation keys d =
  match first_present keys d with
  | Some (VList items) =>
      if (4 <=? List.length items)%nat then
        match all_str items with
        | Some lines => Some (trim_even lines)
        | None => None
        end
      else None
  | _ => None
  end.
Proof.
  induction keys as [|k keys IH]; [reflexivity|].
  cbn [alternative_conversation first_present].
  destruct (dict_get k d) as [v|]; [|exact IH].
  destruct v; reflexivity.
Qed.

Lemma alternative_conversation_parity (keys : list pystr) (d : dict)
  (c : list pystr) :
  alternative_conversation keys d = Some c ->
  Nat.even (List.length c) = true /\ (4 <= List.length c)%nat.
Proof.
  rewrite alternative_conversation_first.
  destruct (first_present keys d) as [[]|]; try discriminate.
  destruct (4 <=? List.length l)%nat eqn:E4; [|discriminate].
  apply Nat.leb_le in E4.
  destruct (all_str l) as [lines|] eqn:Ea; [|discriminate].
  intros H; inversion H; subst.
  apply trim_even_parity. apply all_str_length in Ea. lia.
Qed.

Lemma get_conversation_length (persona : pystr) :
  List.length (get_conversation fallback_conversations persona generic_fallback)
  = 8%nat.
Proof.
  unfold fallback_conversations. cbn [get_conversation].
  repeat match goal with
         | |- context [if ?b then _ else _] => destruct b
         end; reflexivity.
Qed.

Lemma conversation_from_text_parity (text persona : pystr) :
  Nat.even (List.length (conversation_from_text text persona)) = true
  /\ (4 <= List.length (conversation_from_text text persona))%nat.
Proof.
  unfold conversation_from_text.
  destruct (4 <=? List.length (extracted_lines dialogue_patterns text))%nat
    eqn:E.
  - apply trim_even_parity. now apply Nat.leb_le.
  - rewrite get_conversation_length. split; [reflexivity|lia].
Qed.

Lemma conversation_from_json_parity (d : dict) (c : list pystr) :
  conversation_from_json d = Some c ->
  Nat.even (List.length c) = true /\ (4 <= List.length c)%nat.
Proof.
  unfold conversation_from_json.
  destruct (dict_get (str "conversation") d).
  - apply expected_conversation_parity.
  - apply alternative_conversation_parity.
Qed.





Lemma podcast_parity (text persona : pystr) :
  exists conversation,
    extract_podcast_conversation_from_response text persona = Ok conversation
    /\ Nat.even (List.length conversation) = true
    /\ (4 <= List.length conversation)%nat.
Proof.
  rewrite podcast_unfold.
  eexists; split; [reflexivity|].
  destruct (parsed_reply text) as [d|].
  - destruct (conversation_from_json d) as [c|] eqn:E.
    + eapply conversation_from_json_parity; eauto.
    + apply conversation_from_text_parity.
  - apply conversation_from_text_parity.
Qed.

(* ================================================================== *)
(** * Claims on the conversation extraction *)







(* ================================================================== *)
(** * Insight extraction: structure *)

Lemma insights_unfold (depth : nat) (text expected_key insight_type : pystr) :
  extract_insights_from_response (S depth) text expected_key insight_type =
  match parsed_reply text with
  | None => Ok []
  | Some parsed_json =>
      insights_from_json
        (fun t => extract_insights_from_response depth t expected_key
                    insight_type)
        parsed_json expected_key insight_type
  end.
Proof.
  cbn [extract_insights_from_response]. unfold parsed_reply.
  destruct (re_search brace_pattern text) as [js|] eqn:Es; [|reflexivity].
  apply re_search_brace_head in Es. destruct Es as (rest & ->).
  destruct (json_loads (123 :: rest)) as [v|e] eqn:El.
  - apply loads_brace_dict in El. destruct El as (d & ->). reflexivity.
  - apply loads_raise in El. subst e. reflexivity.
Qed.


Lemma filter_length_le (A : Type) (f : A -> bool) (l : list A) :
  (List.length (filter f l) <= List.length l)%nat.
Proof.
  induction l as [|x l IH]; simpl; [lia|].
  destruct (f x); simpl; lia.
Qed.

(** When the expected key holds a list with a usable item, the result is
    that list, validated. *)
Lemma insights_expected (depth : nat) (text expected_key insight_type : pystr)
  (parsed_json : dict) (insights : list value) :
  parsed_reply text = Some parsed_json ->
  dict_get expected_key parsed_json = Some (VList insights) ->
  validated_insights insight_type insights <> [] ->
  extract_insights_from_response (S depth) text expected_key insight_type
  = Ok (validated_insights insight_type insights).
Proof.
  intros Hp Hk Hv. rewrite insights_unfold, Hp.
  unfold insights_from_json, expected_insights. rewrite Hk.
  destruct (validated_insights insight_type insights); [congruence|].
  reflexivity.
Qed.

(** Every non-empty result is the validated list under the expected key of
    some parsed text: the reply, or a re-serialised list of it. *)
Lemma insights_provenance (depth : nat) :
  forall text expected_key insight_type l,
    extract_insights_from_response depth text expected_key insight_type = Ok l ->
    l <> [] ->
    exists text' parsed_json insights,
      parsed_reply text' = Some parsed_json
      /\ dict_get expected_key parsed_json = Some (VList insights)
      /\ l = validated_insights insight_type insights.
Proof.
  induction depth as [|depth IH]; intros text k ty l H Hne; [discriminate|].
  rewrite insights_unfold in H.
  destruct (parsed_reply text) as [d|] eqn:Hp;
    [|inversion H; subst; congruence].
  unfold insights_from_json in H.
  destruct (expected_insights d k ty) as [v|] eqn:He.
  - inversion H; subst. unfold expected_insights in He.
    destruct (dict_get k d) as [[]|] eqn:Hk; try discriminate.
    exists text, d, l0. repeat split; auto.
    destruct (validated_insights ty l0); [discriminate|].
    inversion He; reflexivity.
  - destruct (first_alternative (alternative_keys k) d).
    + eapply IH; eauto.
    + destruct (first_list_entry d).
      * eapply IH; eauto.
      * inversion H; subst; congruence.
Qed.

(* ================================================================== *)
(** * Programs: running and sequencing *)

Lemma run_bind (A B : Type) (w : world) (m : io A) (f : A -> io B) :
  run w (bind m f) = run w (f (run w m)).
Proof. induction m; simpl; auto. Qed.

Lemma calls_bind (A B : Type) (w : world) (m : io A) (f : A -> io B) :
  calls w (bind m f) = calls w m ++ calls w (f (run w m)).
Proof. induction m; simpl; f_equal; auto. Qed.

Lemma run_find_async (w : world) (t : template)
  (expected_key insight_type user_selection : pystr) (context : list value) :
  run w (create_task
           (find_async t expected_key insight_type user_selection context))
  = Ok (insights_of_reply
          (generate_content w
             (Prompt t user_selection (json_dumps (VList context))))
          expected_key insight_type).
Proof. reflexivity. Qed.

(** What the fan-out returns: nothing without context, else the three
    lists, each from its own reply. *)
Lemma run_generate_initial_insights (w : world) (user_selection : pystr) :
  run w (generate_initial_insights_async user_selection) =
  match run w (retrieve_large_context_async user_selection) with
  | [] => empty_insights
  | m :: ms =>
      [ (str "enhancements",
         VList (insights_of_reply
                  (reply_for w ENHANCEMENT_PROMPT user_selection (m :: ms))
                  (str "enhancements") (str "enhancement")));
        (str "connections",
         VList (insights_of_reply
                  (reply_for w CONNECTION_PROMPT user_selection (m :: ms))
                  (str "connections") (str "connection")));
        (str "contradictions",
         VList (insights_of_reply
                  (reply_for w CONTRADICTION_PROMPT user_selection (m :: ms))
                  (str "contradictions") (str "contradiction"))) ]
  end.
Proof.
  unfold generate_initial_insights_async. rewrite run_bind.
  destruct (run w (retrieve_large_context_async user_selection)) as [|m ms];
    [reflexivity|].
  rewrite run_bind. unfold gather3. rewrite !run_bind.
  unfold find_enhancements_async, find_connections_async,
    find_contradictions_async.
  rewrite !run_find_async. reflexivity.
Qed.

(* ================================================================== *)
(** * Claims on the insight extraction and the fan-out *)









(** C5, as stated, fails: the result is not the aliased content itself. *)
Lemma alias_result_not_verbatim :
  extract_insights_from_response recursion_limit conflicts_reply
    (str "contradictions") (str "contradiction")
  <> Ok [VDict [(str "text", VStr (str "x"))]].
Proof. vm_compute. discriminate. Qed.

(** C5, amended.  For the reply with the alias [conflicts], the extraction
    expecting [contradictions] returns a list of one record: the aliased
    element, which carries [text] with value [x], with the three required
    fields added with their defaults. *)
Theorem alias_recovery (depth : nat) :
  extract_insights_from_response (S (S depth)) conflicts_reply
    (str "contradictions") (str "contradiction")
  = Ok [ VDict [ (str "text", VStr (str "x"));
                 (original_content,
                  VStr (str "Content not available for this contradiction"));
                 (page_number, VInt 0);
                 (document_name, VStr unknown_document) ] ].
Proof.
  rewrite insights_unfold.
  replace (parsed_reply conflicts_reply)
    with (Some [(str "conflicts", VList [VDict [(str "text", VStr (str "x"))]])])
    by (vm_compute; reflexivity).
  unfold insights_from_json.
  replace (expected_insights _ _ _) with (@None (list value))
    by (vm_compute; reflexivity).
  replace (first_alternative _ _)
    with (Some [VDict [(str "text", VStr (str "x"))]])
    by (vm_compute; reflexivity).
  rewrite insights_unfold.
  replace (parsed_reply _)
    with (Some [(str "contradictions",
                 VList [VDict [(str "text", VStr (str "x"))]])])
    by (vm_compute; reflexivity).
  vm_compute. reflexivity.
Qed.

(* ================================================================== *)
(** * Claims on retrieval *)

Lemma unique_results_length (metas seen : list value) :
  (List.length (unique_results metas seen) <= List.length metas)%nat.
Proof.
  revert seen; induction metas as [|m metas IH]; intros seen; [simpl; lia|].
  cbn [unique_results List.length].
  destruct m; try (etransitivity; [apply IH|lia]).
  destruct (negb (truthy (content_of d))); [etransitivity; [apply IH|lia]|].
  destruct (set_contains seen (content_of d)) as [[]|];
    try (etransitivity; [apply IH|lia]).
  cbn [List.length]. specialize (IH (content_of d :: seen)). lia.
Qed.

(** C9.  A selection that is empty, or shorter than three characters once
    stripped, makes both retrievals return the empty list at once: the
    program is [Ret []], so in every world it makes no request, neither to
    the embedding service nor to the vector store. *)
Theorem short_selection_guard (user_selection : pystr) (w : world) :
  user_selection = [] \/ (List.length (strip user_selection) < 3)%nat ->
  retrieve_fast_async user_selection = Ret []
  /\ retrieve_large_context_async user_selection = Ret []
  /\ run w (retrieve_fast_async user_selection) = []
  /\ run w (retrieve_large_context_async user_selection) = []
  /\ calls w (retrieve_fast_async user_selection) = []
  /\ calls w (retrieve_large_context_async user_selection) = [].
Proof.
  intros H.
  assert (Hs : selection_too_short user_selection = true).
  { unfold selection_too_short. destruct H as [->|H]; [reflexivity|].
    apply Nat.ltb_lt in H. rewrite H. apply orb_true_r. }
  unfold retrieve_fast_async, retrieve_large_context_async.
  rewrite Hs. repeat split.
Qed.

(** C9 at a selection of one letter between spaces. *)
Lemma short_selection_guard_witness :
  retrieve_fast_async (str "  a ") = Ret []
  /\ calls example_world (retrieve_large_context_async (str "  a ")) = [].
Proof.
  destruct (@short_selection_guard (str "  a ") example_world
              ltac:(right; vm_compute; lia))
    as (H1 & _ & _ & _ & _ & H6).
  split; assumption.
Defined.



(* ================================================================== *)
(** * Deduplication and normalization *)



Lemma key_neq_page : original_content <> page_number.
Proof. intros H; vm_compute in H; discriminate. Qed.

Lemma key_neq_document : original_content <> document_name.
Proof. intros H; vm_compute in H; discriminate. Qed.

Lemma key_neq_box : original_content <> bounding_box.
Proof. intros H; vm_compute in H; discriminate. Qed.

Lemma page_neq_document : page_number <> document_name.
Proof. intros H; vm_compute in H; discriminate. Qed.

Lemma page_neq_box : page_number <> bounding_box.
Proof. intros H; vm_compute in H; discriminate. Qed.

Lemma document_neq_box : document_name <> bounding_box.
Proof. intros H; vm_compute in H; discriminate. Qed.

Lemma dict_get_handle_box_other (k : pystr) (meta : dict) :
  k <> bounding_box ->
  dict_get k (handle_bounding_box meta) = dict_get k meta.
Proof.
  intros H. unfold handle_bounding_box.
  destruct (dict_get bounding_box meta) as [[]|];
    try reflexivity; try (now apply dict_get_set_other).
  destruct (json_loads s); now apply dict_get_set_other.
Qed.

Lemma dict_mem_handle_box (meta : dict) :
  dict_mem bounding_box (handle_bounding_box meta) = true.
Proof.
  unfold handle_bounding_box, dict_mem.
  destruct (dict_get bounding_box meta) as [v|] eqn:E.
  - destruct v; try (now rewrite E).
    destruct (json_loads s); now rewrite dict_get_set_same.
  - now rewrite dict_get_set_same.
Qed.

Lemma dict_get_normalize_content (meta : dict) :
  dict_get original_content (normalize_meta meta)
  = dict_get original_content meta.
Proof.
  unfold normalize_meta.
  rewrite dict_get_handle_box_other by apply key_neq_box.
  rewrite dict_get_setdefault_other by apply key_neq_document.
  now rewrite dict_get_setdefault_other by apply key_neq_page.
Qed.

Lemma content_of_normalize (meta : dict) :
  content_of (normalize_meta meta) = content_of meta.
Proof. unfold content_of. now rewrite dict_get_normalize_content. Qed.

Lemma dict_mem_setdefault_same (k : pystr) (v : value) (d : dict) :
  dict_mem k (setdefault k v d) = true.
Proof.
  unfold dict_mem. destruct (dict_get_setdefault_same k v d) as (x & ->).
  reflexivity.
Qed.

Lemma normalize_meta_fields (meta : dict) :
  dict_mem page_number (normalize_meta meta) = true
  /\ dict_mem document_name (normalize_meta meta) = true
  /\ dict_mem bounding_box (normalize_meta meta) = true.
Proof.
  unfold normalize_meta. repeat split.
  - unfold dict_mem.
    rewrite dict_get_handle_box_other by apply page_neq_box.
    rewrite dict_get_setdefault_other by apply page_neq_document.
    apply dict_mem_setdefault_same.
  - unfold dict_mem.
    rewrite dict_get_handle_box_other by apply document_neq_box.
    apply dict_mem_setdefault_same.
  - apply dict_mem_handle_box.
Qed.















(* ================================================================== *)
(** * Retrieval: what every answer looks like *)

Lemma in_firstn (A : Type) (n : nat) (l : list A) (x : A) :
  In x (firstn n l) -> In x l.
Proof.
  revert l; induction n as [|n IH]; intros [|y l]; simpl; try tauto.
  intros [->|H]; auto.
Qed.

Lemma in_insert_desc (x y : score * value) (l : list (score * value)) :
  In x (insert_desc y l) <-> x = y \/ In x l.
Proof.
  induction l as [|z l IH]; simpl; [intuition congruence|].
  destruct (Qle_bool (fst z) (fst y)); simpl; [intuition congruence|].
  rewrite IH. intuition congruence.
Qed.

Lemma in_sorted_desc (x : score * value) (l : list (score * value)) :
  In x (sorted_desc l) <-> In x l.
Proof.
  induction l as [|y l IH]; simpl; [tauto|].
  rewrite in_insert_desc, IH. intuition congruence.
Qed.

(** Reranking selects among the candidates. *)
Lemma in_reranked_results (candidates : list value)
  (scores : result (list score)) (v : value) :
  In v (reranked_results candidates scores) -> In v candidates.
Proof.
  destruct scores as [sc|e]; cbn [reranked_results].
  - rewrite in_map_iff. intros ([s m] & <- & H).
    apply in_firstn in H. apply (proj1 (in_sorted_desc _ _)) in H.
    now apply in_combine_r in H.
  - apply in_firstn.
Qed.

Lemma length_insert_desc (y : score * value) (l : list (score * value)) :
  List.length (insert_desc y l) = S (List.length l).
Proof.
  induction l as [|z l IH]; simpl; [reflexivity|].
  destruct (Qle_bool (fst z) (fst y)); simpl; auto.
Qed.

Lemma length_sorted_desc (l : list (score * value)) :
  List.length (sorted_desc l) = List.length l.
Proof.
  induction l as [|y l IH]; simpl; [reflexivity|].
  now rewrite length_insert_desc, IH.
Qed.

Lemma length_reranked_results (candidates : list value)
  (scores : result (list score)) :
  (List.length (reranked_results candidates scores) <= 30)%nat.
Proof.
  destruct scores; cbn [reranked_results];
    [rewrite length_map|]; rewrite length_firstn; lia.
Qed.

(** The fast retrieval returns nothing, or the cleaned reranked candidates
    of the first query result. *)
Lemma run_retrieve_fast_cases (w : world) (user_selection : pystr) :
  run w (retrieve_fast_async user_selection) = []
  \/ exists e candidates others scores,
       selection_too_short user_selection = false
       /\ embed_content w user_selection = Ok (Some e)
       /\ collection_query w e 100 = Ok (Some (candidates :: others))
       /\ run w (retrieve_fast_async user_selection)
          = unique_results (reranked_results candidates scores) [].
Proof.
  unfold retrieve_fast_async.
  destruct (selection_too_short user_selection) eqn:Hs; [left; reflexivity|].
  cbn [run].
  destruct (embed_content w user_selection) as [[e|]|] eqn:He;
    try (left; reflexivity).
  cbn [run].
  destruct (collection_query w e 100) as [[[|cands others]|]|] eqn:Hq;
    try (left; reflexivity).
  cbn [candidate_metadatas].
  destruct cands as [|m ms]; [left; reflexivity|].
  right. exists e, (m :: ms), others.
  destruct (rerank_pairs user_selection (m :: ms)) as [pairs|ex].
  - exists (reranker_predict w pairs). cbn [run]. auto.
  - exists (Raise ex). auto.
Qed.

(** The deep retrieval returns nothing, or the cleaned candidates of the
    first query result. *)
Lemma run_retrieve_large_cases (w : world) (user_selection : pystr) :
  run w (retrieve_large_context_async user_selection) = []
  \/ exists e candidates others,
       selection_too_short user_selection = false
       /\ embed_content w user_selection = Ok (Some e)
       /\ collection_query w e 200 = Ok (Some (candidates :: others))
       /\ run w (retrieve_large_context_async user_selection)
          = unique_results candidates [].
Proof.
  unfold retrieve_large_context_async.
  destruct (selection_too_short user_selection) eqn:Hs; [left; reflexivity|].
  cbn [run].
  destruct (embed_content w user_selection) as [[e|]|] eqn:He;
    try (left; reflexivity).
  cbn [run].
  destruct (collection_query w e 200) as [[[|cands others]|]|] eqn:Hq;
    try (left; reflexivity).
  cbn [candidate_metadatas].
  destruct cands as [|m ms]; [left; reflexivity|].
  right. exists e, (m :: ms), others. auto.
Qed.

(** Every record the loop keeps is a candidate mapping with a truthy
    content, normalized. *)
Lemma unique_results_in (metas : list value) :
  forall seen v,
    In v (unique_results metas seen) ->
    exists meta,
      v = VDict (normalize_meta meta)
      /\ In (VDict meta) metas
      /\ truthy (content_of meta) = true.
Proof.
  induction metas as [|m metas IH]; intros seen v H; [destruct H|].
  assert (Hrec : forall seen', In v (unique_results metas seen') ->
            exists meta, v = VDict (normalize_meta meta)
                         /\ In (VDict meta) (m :: metas)
                         /\ truthy (content_of meta) = true).
  { intros seen' H'. destruct (IH _ _ H') as (meta & ? & ? & ?).
    exists meta. repeat split; auto. right; auto. }
  destruct m; try (apply (Hrec seen); exact H).
  cbn [unique_results] in H.
  destruct (truthy (content_of d)) eqn:Ht; cbn [negb] in H;
    [|apply (Hrec seen); exact H].
  destruct (set_contains seen (content_of d)) as [[]|];
    try (apply (Hrec seen); exact H).
  destruct H as [<-|H]; [|eapply Hrec; eauto].
  exists d. repeat split; auto. left; reflexivity.
Qed.

(** A field the store holds, other than [bounding_box], is returned as it
    is. *)
Lemma normalize_meta_keeps (meta : dict) (k : pystr) (x : value) :
  k <> bounding_box ->
  dict_get k meta = Some x ->
  dict_get k (normalize_meta meta) = Some x.
Proof.
  intros Hk Hx. unfold normalize_meta.
  rewrite dict_get_handle_box_other by assumption.
  assert (F : forall k' v d,
             dict_get k d = Some x -> dict_get k (setdefault k' v d) = Some x).
  { intros k' v d Hd. unfold setdefault.
    destruct (dict_mem k' d) eqn:Em; [exact Hd|].
    destruct (list_eq_dec N.eq_dec k k') as [->|Hne].
    - unfold dict_mem in Em. rewrite Hd in Em. discriminate.
    - now rewrite dict_get_set_other. }
  now apply F, F.
Qed.

(** X1.  Every record either retrieval returns is a mapping the vector
    store returned for the embedded selection, normalized: its content is
    truthy, it has [page_number], [document_name] and [bounding_box], and
    every other field the store holds for it is returned unchanged. *)
Theorem retrieved_records_normalized (w : world) (user_selection : pystr)
  (v : value) :
  In v (run w (retrieve_fast_async user_selection))
  \/ In v (run w (retrieve_large_context_async user_selection)) ->
  exists e n candidates others meta,
    embed_content w user_selection = Ok (Some e)
    /\ collection_query w e n = Ok (Some (candidates :: others))
    /\ In (VDict meta) candidates
    /\ v = VDict (normalize_meta meta)
    /\ truthy (content_of meta) = true
    /\ dict_mem page_number (normalize_meta meta) = true
    /\ dict_mem document_name (normalize_meta meta) = true
    /\ dict_mem bounding_box (normalize_meta meta) = true
    /\ (forall k x, k <> bounding_box -> dict_get k meta = Some x ->
          dict_get k (normalize_meta meta) = Some x).
Proof.
  intros [H|H].
  - destruct (run_retrieve_fast_cases w user_selection)
      as [E|(e & cands & others & scores & _ & He & Hq & E)];
      rewrite E in H; [destruct H|].
    apply unique_results_in in H. destruct H as (meta & -> & Hin & Ht).
    apply in_reranked_results in Hin.
    destruct (normalize_meta_fields meta) as (Hp & Hd & Hb).
    exists e, 100%nat, cands, others, meta. repeat split; auto.
    intros k x. apply normalize_meta_keeps.
  - destruct (run_retrieve_large_cases w user_selection)
      as [E|(e & cands & others & _ & He & Hq & E)];
      rewrite E in H; [destruct H|].
    apply unique_results_in in H. destruct H as (meta & -> & Hin & Ht).
    destruct (normalize_meta_fields meta) as (Hp & Hd & Hb).
    exists e, 200%nat, cands, others, meta. repeat split; auto.
    intros k x. apply normalize_meta_keeps.
Qed.

(** X1 in [example_world], at the record its deep retrieval returns. *)
Lemma retrieved_records_normalized_witness :
  let v := VDict [ (original_content, VStr (str "alpha"));
                   (page_number, VInt 3);
                   (document_name, VStr unknown_document);
                   (bounding_box, VDict []) ] in
  In v (run example_world (retrieve_large_context_async (str "selected text")))
  /\ exists meta,
       v = VDict (normalize_meta meta)
       /\ dict_mem bounding_box (normalize_meta meta) = true
       /\ (dict_get page_number meta = Some (VInt 3) ->
           dict_get page_number (normalize_meta meta) = Some (VInt 3)).
Proof.
  intros v.
  assert (Hin : In v (run example_world
                        (retrieve_large_context_async (str "selected text"))))
    by (vm_compute; left; reflexivity).
  split; [exact Hin|].
  destruct (@retrieved_records_normalized example_world (str "selected text")
              v (or_intror Hin))
    as (e & n & cands & others & meta & _ & _ & _ & Hv & _ & _ & _ & Hb & Hk).
  exists meta. split; [exact Hv|]. split; [exact Hb|].
  apply Hk. intros H; vm_compute in H; discriminate.
Defined.

Lemma existsb_false (A : Type) (f : A -> bool) (l : list A) :
  existsb f l = false <-> forall x, In x l -> f x = false.
Proof.
  induction l as [|y l IH]; simpl; [split; [intros _ x []|reflexivity]|].
  rewrite orb_false_iff, IH. split.
  - intros [Hy Hl] x [<-|Hx]; auto.
  - intros H. split; [apply H; auto|]. intros x Hx. apply H; auto.
Qed.

(** No two records of the output have equal contents, and none has a
    content that was seen before. *)
Lemma unique_results_distinct (metas : list value) :
  forall seen,
    ForallOrdPairs
      (fun a b => py_eq (record_content b) (record_content a) = false)
      (unique_results metas seen)
    /\ (forall a s, In a (unique_results metas seen) -> In s seen ->
          py_eq (record_content a) s = false).
Proof.
  induction metas as [|m metas IH]; intros seen;
    [split; [constructor|intros a s []]|].
  destruct m; try exact (IH seen).
  cbn [unique_results].
  destruct (negb (truthy (content_of d))); [exact (IH seen)|].
  unfold set_contains.
  destruct (hashable (content_of d)); [|exact (IH seen)].
  destruct (existsb (py_eq (content_of d)) seen) eqn:E; [exact (IH seen)|].
  destruct (IH (content_of d :: seen)) as (IH1 & IH2).
  split.
  - constructor; [|exact IH1].
    apply Forall_forall. intros b Hb. cbn [record_content].
    rewrite content_of_normalize. apply (IH2 b); [exact Hb|left; reflexivity].
  - intros a s [<-|Ha] Hs.
    + cbn [record_content]. rewrite content_of_normalize.
      apply (proj1 (existsb_false _ _) E). exact Hs.
    + apply (IH2 a); [exact Ha|right; exact Hs].
Qed.

Lemma in_text_contents (l : list value) (c : pystr) :
  In c (text_contents l) -> exists v, In v l /\ record_content v = VStr c.
Proof.
  induction l as [|v l IH]; cbn [text_contents]; [intros []|].
  destruct (content_text v) as [s|] eqn:E.
  - intros [<-|H].
    + exists v. split; [left; reflexivity|].
      destruct v; try discriminate. cbn [content_text record_content] in *.
      destruct (content_of d) as [| | | |[|x t]| |]; try discriminate.
      now inversion E.
    + destruct (IH H) as (u & Hu & Hc). exists u. split; [right|]; auto.
  - intros H. destruct (IH H) as (u & Hu & Hc). exists u.
    split; [right|]; auto.
Qed.

Lemma unique_results_nodup (metas : list value) :
  forall seen, NoDup (text_contents (unique_results metas seen)).
Proof.
  induction metas as [|m metas IH]; intros seen; [constructor|].
  destruct m; try exact (IH seen).
  cbn [unique_results].
  destruct (negb (truthy (content_of d))); [exact (IH seen)|].
  unfold set_contains.
  destruct (hashable (content_of d)); [|exact (IH seen)].
  destruct (existsb (py_eq (content_of d)) seen) eqn:E; [exact (IH seen)|].
  cbn [text_contents content_text]. rewrite content_of_normalize.
  destruct (content_of d) as [| | | |[|x t]| |] eqn:Ec; try apply IH.
  constructor; [|apply IH].
  intros Hin. apply in_text_contents in Hin. destruct Hin as (v & Hv & Hc).
  pose proof (proj2 (unique_results_distinct metas (VStr (x :: t) :: seen))
                v (VStr (x :: t)) Hv (or_introl eq_refl)) as Hne.
  rewrite Hc in Hne. cbn [py_eq] in Hne. now rewrite str_eqb_refl in Hne.
Qed.

(** X2.  Neither retrieval returns two records with equal contents, and the
    fast retrieval returns at most 30 records, whatever the services
    answer. *)
Theorem retrieval_results_distinct (w : world) (user_selection : pystr) :
  let fast := run w (retrieve_fast_async user_selection) in
  let deep := run w (retrieve_large_context_async user_selection) in
  (List.length fast <= 30)%nat
  /\ ForallOrdPairs
       (fun a b => py_eq (record_content b) (record_content a) = false) fast
  /\ ForallOrdPairs
       (fun a b => py_eq (record_content b) (record_content a) = false) deep
  /\ NoDup (text_contents fast)
  /\ NoDup (text_contents deep).
Proof.
  intros fast deep.
  assert (Hf : exists metas,
             fast = unique_results metas [] /\ (List.length metas <= 30)%nat).
  { subst fast.
    destruct (run_retrieve_fast_cases w user_selection)
      as [->|(e & cands & others & scores & _ & _ & _ & ->)].
    - exists []. split; [reflexivity|cbn [List.length]; lia].
    - eexists. split; [reflexivity|apply length_reranked_results]. }
  assert (Hd : exists metas, deep = unique_results metas []).
  { subst deep.
    destruct (run_retrieve_large_cases w user_selection)
      as [->|(e & cands & others & _ & _ & _ & ->)].
    - exists []. reflexivity.
    - eexists. reflexivity. }
  destruct Hf as (mf & -> & Hlen). destruct Hd as (md & ->).
  split; [etransitivity; [apply unique_results_length|exact Hlen]|].
  split; [apply unique_results_distinct|].
  split; [apply unique_results_distinct|].
  split; apply unique_results_nodup.
Qed.

(* ================================================================== *)
(** * Requests *)


Lemma calls_find_async (w : world) (t : template)
  (expected_key insight_type user_selection : pystr) (context : list value) :
  calls w (create_task
             (find_async t expected_key insight_type user_selection context))
  = [CallGenerate (Prompt t user_selection (json_dumps (VList context)))].
Proof. reflexivity. Qed.

(** X4.  The fan-out first makes the requests of the deep retrieval.  When
    that returns no section it makes no other request and returns the three
    empty lists; otherwise it asks the generation model exactly three
    times, for enhancements, connections and contradictions, each time with
    the selection and the same serialised context. *)
Theorem fan_out_requests (w : world) (user_selection : pystr) :
  let large_context := run w (retrieve_large_context_async user_selection) in
  calls w (generate_initial_insights_async user_selection)
  = calls w (retrieve_large_context_async user_selection)
    ++ generation_calls user_selection large_context
  /\ (large_context = [] ->
      run w (generate_initial_insights_async user_selection) = empty_insights
      /\ calls w (generate_initial_insights_async user_selection)
         = calls w (retrieve_large_context_async user_selection)).
Proof.
  intros large_context.
  assert (E : calls w (generate_initial_insights_async user_selection)
              = calls w (retrieve_large_context_async user_selection)
                ++ generation_calls user_selection large_context).
  { unfold generate_initial_insights_async. rewrite calls_bind.
    fold large_context. f_equal.
    destruct large_context as [|m ms]; [reflexivity|].
    unfold gather3. rewrite !calls_bind, !run_bind.
    unfold find_enhancements_async, find_connections_async,
      find_contradictions_async.
    rewrite !calls_find_async. reflexivity. }
  split; [exact E|].
  intros Hnil. split.
  - rewrite run_generate_initial_insights. fold large_context.
    now rewrite Hnil.
  - rewrite E, Hnil. apply app_nil_r.
Qed.

(** X4 in [example_world]: two requests of the retrieval and three of the
    fan-out for a selection with context, none for a selection that is too
    short. *)
Lemma fan_out_requests_witness :
  List.length
    (calls example_world
       (generate_initial_insights_async (str "selected text")))
  = 5%nat
  /\ run example_world (generate_initial_insights_async (str "ab"))
     = empty_insights
  /\ calls example_world (generate_initial_insights_async (str "ab")) = [].
Proof.
  split.
  - rewrite (proj1 (fan_out_requests example_world (str "selected text"))).
    vm_compute. reflexivity.
  - destruct (proj2 (fan_out_requests example_world (str "ab")) eq_refl)
      as (Hr & Hc).
    split; [exact Hr|]. rewrite Hc. reflexivity.
Defined.

(* ================================================================== *)
(** * Insight records *)

Lemma dict_mem_setdefault_keeps (k k' : pystr) (v : value) (d : dict) :
  dict_mem k d = true -> dict_mem k (setdefault k' v d) = true.
Proof.
  unfold setdefault. destruct (dict_mem k' d) eqn:E; [auto|].
  intros H. unfold dict_mem in *.
  destruct (list_eq_dec N.eq_dec k k') as [->|Hne].
  - now rewrite dict_get_set_same.
  - now rewrite dict_get_set_other.
Qed.

Lemma validate_insight_fields (insight_type : pystr) (insight v : value) :
  validate_insight insight_type insight = Some v ->
  exists d,
    v = VDict d
    /\ dict_mem original_content d = true
    /\ dict_mem page_number d = true
    /\ dict_mem document_name d = true.
Proof.
  destruct insight; try discriminate; cbn [validate_insight];
    intros H; inversion H; subst; clear H; eexists; (split; [reflexivity|]).
  - repeat split; reflexivity.
  - repeat split.
    + apply dict_mem_setdefault_keeps, dict_mem_setdefault_keeps,
        dict_mem_setdefault_same.
    + apply dict_mem_setdefault_keeps, dict_mem_setdefault_same.
    + apply dict_mem_setdefault_same.
Qed.

Lemma in_validated_insights (insight_type : pystr) (l : list value)
  (v : value) :
  In v (validated_insights insight_type l) ->
  exists insight,
    In insight l /\ validate_insight insight_type insight = Some v.
Proof.
  induction l as [|x l IH]; cbn [validated_insights]; [intros []|].
  destruct (validate_insight insight_type x) as [y|] eqn:E.
  - intros [<-|H].
    + exists x. split; [left; reflexivity|exact E].
    + destruct (IH H) as (i & Hi & Hv). exists i. split; [right|]; auto.
  - intros H. destruct (IH H) as (i & Hi & Hv). exists i.
    split; [right|]; auto.
Qed.

(** X5.  Every insight the extraction returns, for any reply, is a mapping
    with [original_content], [page_number] and [document_name]; so is every
    insight in the three lists of the fan-out. *)
Theorem insight_records_complete (v : value) :
  (exists depth text expected_key insight_type l,
     extract_insights_from_response depth text expected_key insight_type = Ok l
     /\ In v l)
  \/ (exists w user_selection k l,
        In (k, VList l) (run w (generate_initial_insights_async user_selection))
        /\ In v l) ->
  exists d,
    v = VDict d
    /\ dict_mem original_content d = true
    /\ dict_mem page_number d = true
    /\ dict_mem document_name d = true.
Proof.
  assert (F : forall depth text k ty l,
             extract_insights_from_response depth text k ty = Ok l ->
             In v l ->
             exists d, v = VDict d
                       /\ dict_mem original_content d = true
                       /\ dict_mem page_number d = true
                       /\ dict_mem document_name d = true).
  { intros depth text k ty l H Hin.
    destruct (insights_provenance depth text k ty H)
      as (text' & d & insights & _ & _ & ->).
    - intros ->. destruct Hin.
    - apply in_validated_insights in Hin.
      destruct Hin as (i & _ & Hv).
      eapply validate_insight_fields; eauto. }
  assert (G : forall reply k ty,
             In v (insights_of_reply reply k ty) ->
             exists d, v = VDict d
                       /\ dict_mem original_content d = true
                       /\ dict_mem page_number d = true
                       /\ dict_mem document_name d = true).
  { intros reply k ty. unfold insights_of_reply.
    destruct reply as [r|]; [|intros []].
    destruct (negb (parts r)); [intros []|].
    destruct (text_of r) as [text|]; [|intros []].
    destruct (extract_insights_from_response recursion_limit text k ty)
      as [l|] eqn:E; [|intros []].
    now apply (F _ _ _ _ _ E). }
  intros [(depth & text & k & ty & l & H & Hin)
         |(w & sel & k & l & Hk & Hin)].
  - eapply F; eauto.
  - rewrite run_generate_initial_insights in Hk.
    destruct (run w (retrieve_large_context_async sel)) as [|m ms].
    + unfold empty_insights in Hk. cbn [In] in Hk.
      repeat (destruct Hk as [Hk|Hk];
              [inversion Hk; subst; destruct Hin|]).
      destruct Hk.
    + cbn [In] in Hk.
      repeat (destruct Hk as [Hk|Hk];
              [inversion Hk; subst; eapply G; eauto|]).
      destruct Hk.
Qed.

(** X5 at the six wrapped strings of [six_enhancements]. *)
Lemma insight_records_complete_witness :
  exists d,
    VDict [ (original_content, VStr (str "a"));
            (page_number, VInt 0);
            (document_name, VStr unknown_document);
            (bounding_box, VDict []) ] = VDict d
    /\ dict_mem original_content d = true
    /\ dict_mem page_number d = true
    /\ dict_mem document_name d = true.
Proof.
  apply insight_records_complete. left.
  exists recursion_limit, six_enhancements, (str "enhancements"),
    (str "enhancement").
  eexists. split; [vm_compute; reflexivity|].
  left. reflexivity.
Defined.

(* ================================================================== *)
(** * The text patterns *)













(* ================================================================== *)
(** * Reranking *)









Unset Implicit Arguments.

(* ================================================================== *)
(** * Strings: written and read back *)

Lemma hex_digit_char (n : N) : n < 16 -> hex_digit (hex_char n) = Some n.
Proof.
  intros H.
  assert (E : In n (map N.of_nat (seq 0 16))).
  { apply in_map_iff. exists (N.to_nat n).
    split; [apply N2Nat.id|apply in_seq; lia]. }
  cbn in E. repeat (destruct E as [<-|E]; [reflexivity|]). destruct E.
Qed.

Lemma hex4_u_escape (c : N) (tail : pystr) :
  c < 65536 ->
  exists h1 h2 h3 h4,
    u_escape c ++ tail = 92 :: 117 :: h1 :: h2 :: h3 :: h4 :: tail
    /\ hex4 h1 h2 h3 h4 = Some c.
Proof.
  intros H. unfold u_escape. do 4 eexists. split; [reflexivity|].
  unfold hex4.
  assert (H1 : c / 4096 < 16) by (apply N.Div0.div_lt_upper_bound; lia).
  assert (H2 : (c / 256) mod 16 < 16) by (apply N.mod_lt; lia).
  assert (H3 : (c / 16) mod 16 < 16) by (apply N.mod_lt; lia).
  assert (H4 : c mod 16 < 16) by (apply N.mod_lt; lia).
  rewrite !hex_digit_char by assumption. f_equal.
  pose proof (N.div_mod c 16 ltac:(lia)) as E1.
  pose proof (N.div_mod (c / 16) 16 ltac:(lia)) as E2.
  pose proof (N.div_mod (c / 256) 16 ltac:(lia)) as E3.
  assert (D1 : c / 16 / 16 = c / 256)
    by (rewrite N.Div0.div_div; reflexivity).
  assert (D2 : c / 256 / 16 = c / 4096)
    by (rewrite N.Div0.div_div; reflexivity).
  rewrite D1 in E2. rewrite D2 in E3. lia.
Qed.

(** An escape that is not the first half of a pair. *)
Lemma scanstring_u_single (h1 h2 h3 h4 u : N) (tail : pystr) :
  hex4 h1 h2 h3 h4 = Some u ->
  is_high_surrogate u = false ->
  scanstring (92 :: 117 :: h1 :: h2 :: h3 :: h4 :: tail)
  = push u (scanstring tail).
Proof.
  intros Hh Hs. cbn [scanstring].
  replace (92 =? 34) with false by reflexivity.
  replace (92 =? 92) with true by reflexivity.
  replace (117 =? 117) with true by reflexivity.
  rewrite Hh, Hs. cbn [andb].
  destruct tail as [|a [|b [|c [|d [|e [|f t]]]]]]; reflexivity.
Qed.

(** The two escapes of a pair. *)
Lemma scanstring_u_pair (h1 h2 h3 h4 g1 g2 g3 g4 hi lo : N) (tail : pystr) :
  hex4 h1 h2 h3 h4 = Some hi ->
  hex4 g1 g2 g3 g4 = Some lo ->
  is_high_surrogate hi = true ->
  is_low_surrogate lo = true ->
  scanstring (92 :: 117 :: h1 :: h2 :: h3 :: h4
              :: 92 :: 117 :: g1 :: g2 :: g3 :: g4 :: tail)
  = push (join_surrogates hi lo) (scanstring tail).
Proof.
  intros Hh Hg Hhi Hlo. cbn [scanstring].
  replace (92 =? 34) with false by reflexivity.
  replace (92 =? 92) with true by reflexivity.
  replace (117 =? 117) with true by reflexivity.
  rewrite Hh, Hhi, Hg, Hlo. reflexivity.
Qed.

Lemma scanstring_encode_char (c : N) (tail : pystr) :
  scalar c = true ->
  scanstring (encode_char c ++ tail) = push c (scanstring tail).
Proof.
  intros Hc. unfold encode_char.
  destruct (c =? 34) eqn:E34; [apply N.eqb_eq in E34; subst; reflexivity|].
  destruct (c =? 92) eqn:E92; [apply N.eqb_eq in E92; subst; reflexivity|].
  destruct (c =? 10) eqn:E10; [apply N.eqb_eq in E10; subst; reflexivity|].
  destruct (c =? 13) eqn:E13; [apply N.eqb_eq in E13; subst; reflexivity|].
  destruct (c =? 9) eqn:E9; [apply N.eqb_eq in E9; subst; reflexivity|].
  destruct (c =? 12) eqn:E12; [apply N.eqb_eq in E12; subst; reflexivity|].
  destruct (c =? 8) eqn:E8; [apply N.eqb_eq in E8; subst; reflexivity|].
  destruct (in_range 32 126 c) eqn:Er.
  - cbn [app scanstring]. rewrite E34, E92.
    unfold in_range in Er. apply andb_true_iff in Er. destruct Er as (Er & _).
    apply N.leb_le in Er.
    replace (c <? 32) with false by (symmetry; apply N.ltb_ge; exact Er).
    reflexivity.
  - unfold scalar, in_range in Hc.
    destruct (c <? 65536) eqn:E16.
    + apply N.ltb_lt in E16.
      destruct (hex4_u_escape c tail E16) as (h1 & h2 & h3 & h4 & -> & Hh).
      apply scanstring_u_single; [exact Hh|].
      unfold is_high_surrogate, in_range.
      apply orb_true_iff in Hc. destruct Hc as [Hc|Hc].
      * apply N.ltb_lt in Hc. apply andb_false_iff. left.
        apply N.leb_gt. exact Hc.
      * apply andb_true_iff in Hc. destruct Hc as (Hc & _).
        apply N.leb_le in Hc. apply andb_false_iff. right.
        apply N.leb_gt. lia.
    + apply N.ltb_ge in E16.
      assert (Hmax : c <= 1114111).
      { apply orb_true_iff in Hc. destruct Hc as [Hc|Hc].
        - apply N.ltb_lt in Hc. lia.
        - apply andb_true_iff in Hc. destruct Hc as (_ & Hc).
          now apply N.leb_le in Hc. }
      assert (Hq : (c - 65536) / 1024 < 1024)
        by (apply N.Div0.div_lt_upper_bound; lia).
      assert (Hm : (c - 65536) mod 1024 < 1024) by (apply N.mod_lt; lia).
      pose proof (N.div_mod (c - 65536) 1024 ltac:(lia)) as Hdm.
      remember ((c - 65536) / 1024) as q eqn:Eq.
      remember ((c - 65536) mod 1024) as m eqn:Em.
      assert (Hhi : 55296 + q < 65536) by lia.
      assert (Hlo : 56320 + m < 65536) by lia.
      rewrite <- app_assoc.
      destruct (hex4_u_escape _ (u_escape (56320 + m) ++ tail) Hhi)
        as (h1 & h2 & h3 & h4 & -> & Hh).
      destruct (hex4_u_escape _ tail Hlo) as (g1 & g2 & g3 & g4 & -> & Hg).
      erewrite scanstring_u_pair; [|exact Hh|exact Hg| |].
      * f_equal. unfold join_surrogates. lia.
      * unfold is_high_surrogate, in_range.
        apply andb_true_iff. split; apply N.leb_le; lia.
      * unfold is_low_surrogate, in_range.
        apply andb_true_iff. split; apply N.leb_le; lia.
Qed.

Lemma scanstring_encode (s : pystr) (rest : pystr) :
  forallb scalar s = true ->
  scanstring (flat_map encode_char s ++ 34 :: rest) = Some (s, rest).
Proof.
  induction s as [|c s IH]; intros H; [reflexivity|].
  cbn [forallb] in H. apply andb_true_iff in H. destruct H as (Hc & Hs).
  cbn [flat_map]. rewrite <- app_assoc.
  rewrite scanstring_encode_char by assumption.
  now rewrite IH.
Qed.

(* ================================================================== *)
(** * Numbers: written and read back *)

Lemma delimited_cases (rest : pystr) :
  delimited rest = true ->
  rest = [] \/ exists c t, rest = c :: t /\ (c = 44 \/ c = 93 \/ c = 125).
Proof.
  destruct rest as [|c t]; [auto|]. cbn [delimited].
  rewrite !orb_true_iff, !N.eqb_eq. intros H. right. exists c, t. tauto.
Qed.

Lemma span_app_stop (p : N -> bool) (ds rest : pystr) :
  forallb p ds = true ->
  match rest with [] => True | c :: _ => p c = false end ->
  span p (ds ++ rest) = List.length ds.
Proof.
  intros Hd Hr. induction ds as [|d ds IH]; cbn [app span List.length].
  - destruct rest as [|c t]; [reflexivity|]. cbn [span]. now rewrite Hr.
  - cbn [forallb] in Hd. apply andb_true_iff in Hd. destruct Hd as (-> & Hd).
    f_equal. now apply IH.
Qed.

Lemma uint_digits_ascii (d : Decimal.uint) :
  forallb is_ascii_digit (uint_digits d) = true.
Proof. induction d; cbn [uint_digits forallb]; auto. Qed.

Lemma of_uint_acc_digits (d : Decimal.uint) :
  forall acc,
    Zpos (Pos.of_uint_acc d acc)
    = fold_left digits_step (uint_digits d) (Zpos acc).
Proof.
  induction d; intros acc; cbn [Pos.of_uint_acc uint_digits fold_left];
    try reflexivity; rewrite IHd; f_equal; unfold digits_step;
    lia.
Qed.

Lemma of_uint_digits (d : Decimal.uint) :
  Z.of_N (Pos.of_uint d) = fold_left digits_step (uint_digits d) 0%Z.
Proof.
  induction d; cbn [Pos.of_uint uint_digits fold_left]; try reflexivity;
    try exact IHd;
    cbn [Z.of_N]; rewrite of_uint_acc_digits; reflexivity.
Qed.

Lemma digits_value_pos (p : positive) :
  digits_value (uint_digits (Pos.to_uint p)) = Zpos p.
Proof.
  unfold digits_value. change (fun (acc : Z) (c : N) => _) with digits_step.
  rewrite <- of_uint_digits, DecimalPos.Unsigned.of_to. reflexivity.
Qed.

Lemma nzhead_head (d : Decimal.uint) :
  match Decimal.nzhead d with Decimal.D0 _ => False | _ => True end.
Proof. induction d; cbn [Decimal.nzhead]; auto. Qed.

(** The digits of a positive number start with a digit that is not zero. *)
Lemma to_uint_head (p : positive) :
  exists c t,
    uint_digits (Pos.to_uint p) = c :: t /\ in_range 49 57 c = true.
Proof.
  pose proof (DecimalPos.Unsigned.to_of (Pos.to_uint p)) as H.
  rewrite DecimalPos.Unsigned.of_to in H. cbn [N.to_uint] in H.
  pose proof (DecimalPos.Unsigned.to_uint_nonzero p) as Hz.
  pose proof (nzhead_head (Pos.to_uint p)) as Hn.
  unfold Decimal.unorm in H.
  destruct (Decimal.nzhead (Pos.to_uint p)) eqn:E; rewrite H in *;
    try contradiction; try (exfalso; apply Hz; reflexivity);
    cbn [uint_digits]; eexists; eexists; (split; [reflexivity|reflexivity]).
Qed.

Lemma delimited_not_digit (rest : pystr) :
  delimited rest = true ->
  match rest with [] => True | c :: _ => is_ascii_digit c = false end.
Proof.
  intros H. destruct (delimited_cases _ H) as [ -> | (c & t & -> & [ -> | [ -> | -> ] ]) ];
    [exact I|reflexivity..].
Qed.

Lemma frac_len_delimited (rest : pystr) :
  delimited rest = true -> frac_len rest = O.
Proof.
  intros H. destruct (delimited_cases _ H) as [ -> | (c & t & -> & [ -> | [ -> | -> ] ]) ];
    reflexivity.
Qed.

Lemma exp_len_delimited (rest : pystr) :
  delimited rest = true -> exp_len rest = O.
Proof.
  intros H. destruct (delimited_cases _ H) as [ -> | (c & t & -> & [ -> | [ -> | -> ] ]) ];
    reflexivity.
Qed.

(** A run of digits without a leading zero, or the single digit zero, is
    read as the integer it denotes. *)
Lemma match_number_digits (c : N) (t rest : pystr) :
  forallb is_ascii_digit (c :: t) = true ->
  in_range 49 57 c = true \/ (c = 48 /\ t = []) ->
  delimited rest = true ->
  match_number ((c :: t) ++ rest)
  = Some (VInt (digits_value (c :: t)), rest)
  /\ match_number (45 :: (c :: t) ++ rest)
     = Some (VInt (- digits_value (c :: t)), rest).
Proof.
  intros Hd Hc Hr.
  assert (Hspan : span is_ascii_digit ((c :: t) ++ rest)
                  = List.length (c :: t))
    by (apply span_app_stop; [exact Hd|now apply delimited_not_digit]).
  assert (Hn : int_part_len ((c :: t) ++ rest) = List.length (c :: t)).
  { cbn [app int_part_len]. destruct Hc as [Hc|(-> & ->)].
    - rewrite Hc.
      replace (c =? 48) with false; [exact Hspan|].
      symmetry. apply N.eqb_neq. intros ->. discriminate Hc.
    - reflexivity. }
  assert (Hneg : (c =? 45) = false).
  { apply N.eqb_neq. intros ->. destruct Hc as [Hc|(Hc & _)]; discriminate. }
  assert (Hskip : skipn (List.length (c :: t)) ((c :: t) ++ rest) = rest)
    by apply skipn_length_app.
  assert (Hfirst : firstn (List.length (c :: t)) ((c :: t) ++ rest) = c :: t)
    by apply firstn_length_app.
  split.
  - unfold match_number. cbn [app] in *. rewrite Hneg, Hn.
    cbn [List.length Nat.eqb]. cbn [List.length] in Hskip, Hfirst.
    rewrite Hskip, (frac_len_delimited _ Hr).
    replace (S (List.length t) + 0)%nat with (S (List.length t)) by lia.
    rewrite Hskip, (exp_len_delimited _ Hr).
    cbn [Nat.eqb andb].
    replace (0 + S (List.length t) + 0 + 0)%nat with (S (List.length t))
      by lia.
    now rewrite Hskip, Hfirst.
  - unfold match_number.
    replace (45 =? 45) with true by reflexivity.
    cbn [tl]. rewrite Hn.
    cbn [List.length Nat.eqb app]. cbn [List.length app] in Hskip, Hfirst.
    rewrite Hskip, (frac_len_delimited _ Hr).
    replace (S (List.length t) + 0)%nat with (S (List.length t)) by lia.
    rewrite Hskip, (exp_len_delimited _ Hr).
    cbn [Nat.eqb andb].
    replace (1 + S (List.length t) + 0 + 0)%nat with (S (S (List.length t)))
      by lia.
    cbn [skipn]. cbn [skipn] in Hskip. now rewrite Hskip, Hfirst.
Qed.

Lemma match_number_int_repr (z : Z) (rest : pystr) :
  delimited rest = true ->
  match_number (int_repr z ++ rest) = Some (VInt z, rest).
Proof.
  intros Hr. destruct z as [|p|p]; cbn [int_repr].
  - apply (match_number_digits 48 [] rest); auto.
  - destruct (to_uint_head p) as (c & t & E & Hc).
    pose proof (uint_digits_ascii (Pos.to_uint p)) as Hd.
    pose proof (digits_value_pos p) as Hv.
    rewrite E in *. rewrite <- Hv.
    apply match_number_digits; auto.
  - destruct (to_uint_head p) as (c & t & E & Hc).
    pose proof (uint_digits_ascii (Pos.to_uint p)) as Hd.
    pose proof (digits_value_pos p) as Hv.
    rewrite E in *.
    change (Z.neg p) with (- Z.pos p)%Z. rewrite <- Hv.
    apply (match_number_digits c t rest); auto.
Qed.

(** ** Numbers in front of a delimiter *)

Lemma span_le (p : N -> bool) (s : pystr) : (span p s <= List.length s)%nat.
Proof. induction s as [|c s IH]; cbn [span List.length]; [lia|]. destruct (p c); lia. Qed.

Lemma span_app_delim (p : N -> bool) (b rest : pystr) :
  match rest with [] => True | c :: _ => p c = false end ->
  span p (b ++ rest) = span p b.
Proof.
  intros Hr. induction b as [|x b IH]; cbn [app span].
  - destruct rest as [|c t]; [reflexivity|]. cbn [span]. now rewrite Hr.
  - destruct (p x); [f_equal; exact IH|reflexivity].
Qed.

Lemma int_part_len_le (s : pystr) : (int_part_len s <= List.length s)%nat.
Proof.
  destruct s as [|c s]; cbn [int_part_len List.length]; [lia|].
  destruct (c =? 48); [lia|]. destruct (in_range 49 57 c); [|lia].
  apply (span_le is_ascii_digit (c :: s)).
Qed.

Lemma frac_len_le (s : pystr) : (frac_len s <= List.length s)%nat.
Proof.
  destruct s as [|c s]; cbn [frac_len List.length]; [lia|].
  destruct ((c =? 46) && (1 <=? span is_ascii_digit s)%nat); [|lia].
  pose proof (span_le is_ascii_digit s). lia.
Qed.

Lemma exp_len_le (s : pystr) : (exp_len s <= List.length s)%nat.
Proof.
  destruct s as [|c s]; cbn [exp_len List.length]; [lia|].
  destruct ((c =? 101) || (c =? 69)); [|lia].
  destruct s as [|sg s]; [lia|]. cbn [List.length].
  destruct ((sg =? 43) || (sg =? 45)).
  - destruct (1 <=? span is_ascii_digit s)%nat; [|lia].
    pose proof (span_le is_ascii_digit s). lia.
  - destruct (1 <=? span is_ascii_digit (sg :: s))%nat; [|lia].
    pose proof (span_le is_ascii_digit (sg :: s)). cbn [List.length] in *. lia.
Qed.

Lemma int_part_len_app (b rest : pystr) :
  delimited rest = true -> b <> [] ->
  int_part_len (b ++ rest) = int_part_len b.
Proof.
  intros Hr Hb. destruct b as [|c b]; [congruence|]. cbn [app int_part_len].
  destruct (c =? 48); [reflexivity|]. destruct (in_range 49 57 c); [|reflexivity].
  apply (span_app_delim is_ascii_digit (c :: b)).
  now apply delimited_not_digit.
Qed.

Lemma frac_len_app (y rest : pystr) :
  delimited rest = true -> frac_len (y ++ rest) = frac_len y.
Proof.
  intros Hr. destruct y as [|c y]; [now apply frac_len_delimited|].
  cbn [app frac_len].
  now rewrite (span_app_delim is_ascii_digit y rest (delimited_not_digit _ Hr)).
Qed.

Lemma exp_len_app (y rest : pystr) :
  delimited rest = true -> exp_len (y ++ rest) = exp_len y.
Proof.
  intros Hr. destruct y as [|c y]; [now apply exp_len_delimited|].
  cbn [app exp_len]. destruct ((c =? 101) || (c =? 69)); [|reflexivity].
  destruct y as [|sg y].
  - cbn [app].
    destruct (delimited_cases _ Hr)
      as [ -> | (d & t & -> & [ -> | [ -> | -> ] ]) ]; reflexivity.
  - cbn [app]. destruct ((sg =? 43) || (sg =? 45)).
    + now rewrite (span_app_delim is_ascii_digit y rest
                     (delimited_not_digit _ Hr)).
    + change (sg :: y ++ rest) with ((sg :: y) ++ rest).
      now rewrite (span_app_delim is_ascii_digit (sg :: y) rest
                     (delimited_not_digit _ Hr)).
Qed.

Lemma skipn_app_le (A : Type) (n : nat) (l rest : list A) :
  (n <= List.length l)%nat -> skipn n (l ++ rest) = skipn n l ++ rest.
Proof.
  revert l; induction n as [|n IH]; intros [|x l] H; cbn [List.length] in H;
    try reflexivity; try lia.
  cbn [app skipn]. apply IH. lia.
Qed.

Lemma firstn_app_le (A : Type) (n : nat) (l rest : list A) :
  (n <= List.length l)%nat -> firstn n (l ++ rest) = firstn n l.
Proof.
  revert l; induction n as [|n IH]; intros [|x l] H; cbn [List.length] in H;
    try reflexivity; try lia.
  cbn [app firstn]. f_equal. apply IH. lia.
Qed.

Lemma skipn_nil_length (A : Type) (n : nat) (l : list A) :
  skipn n l = [] -> (List.length l <= n)%nat.
Proof.
  revert l; induction n as [|n IH]; intros [|x l]; cbn [skipn List.length];
    try discriminate; try lia.
  intros H. apply IH in H. lia.
Qed.

(** A number that fills a text is read the same in front of a
    delimiter. *)
Lemma match_number_app (s rest : pystr) (v : value) :
  match_number s = Some (v, []) ->
  delimited rest = true ->
  match_number (s ++ rest) = Some (v, rest).
Proof.
  intros H Hr. unfold match_number in *.
  set (neg := match s with c :: _ => c =? 45 | [] => false end) in *.
  set (body := if neg then tl s else s) in *.
  destruct (int_part_len body =? 0)%nat eqn:E0; [discriminate|].
  apply Nat.eqb_neq in E0.
  assert (Hbody : body <> []) by (intros Hb; rewrite Hb in E0; auto).
  assert (Hs : s <> []).
  { intros Hs. apply Hbody. unfold body, neg. rewrite Hs. reflexivity. }
  assert (Hneg : match s ++ rest with c :: _ => c =? 45 | [] => false end
                 = neg)
    by (destruct s; [congruence|reflexivity]).
  assert (Hb : (if neg then tl (s ++ rest) else s ++ rest) = body ++ rest).
  { subst body. destruct neg; [|reflexivity].
    destruct s; [congruence|reflexivity]. }
  assert (Hlen_s : List.length s
                   = ((if neg then 1 else 0) + List.length body)%nat).
  { subst body. destruct neg; [|reflexivity].
    destruct s; [congruence|reflexivity]. }
  rewrite Hneg, Hb. clear Hneg Hb.
  set (n := int_part_len body) in *.
  pose proof (int_part_len_le body) as Hn. fold n in Hn.
  rewrite int_part_len_app by assumption. fold n.
  destruct (n =? 0)%nat eqn:E0'; [apply Nat.eqb_eq in E0'; lia|].
  rewrite skipn_app_le by exact Hn. rewrite frac_len_app by exact Hr.
  set (f := frac_len (skipn n body)) in *.
  pose proof (frac_len_le (skipn n body)) as Hf. fold f in Hf.
  rewrite length_skipn in Hf.
  rewrite skipn_app_le by lia. rewrite exp_len_app by exact Hr.
  set (e := exp_len (skipn (n + f) body)) in *.
  pose proof (exp_len_le (skipn (n + f) body)) as He. fold e in He.
  rewrite length_skipn in He.
  set (len := ((if neg then 1 else 0) + n + f + e)%nat) in *.
  assert (Hle : (len <= List.length s)%nat) by (subst len; lia).
  assert (Hge : (List.length s <= len)%nat).
  { destruct ((f =? 0)%nat && (e =? 0)%nat); inversion H as [[Hv Hk]];
      now apply skipn_nil_length. }
  assert (Hskip : skipn len (s ++ rest) = rest).
  { assert (len = List.length s) as -> by lia. apply skipn_length_app. }
  rewrite Hskip. rewrite !firstn_app_le by first [exact Hle|exact Hn].
  destruct ((f =? 0)%nat && (e =? 0)%nat); inversion H; reflexivity.
Qed.

Lemma starts_with_app (p s r rest : pystr) :
  starts_with p s = Some r -> starts_with p (s ++ rest) = Some (r ++ rest).
Proof.
  revert s; induction p as [|x p IH]; intros s; cbn [starts_with].
  - destruct s; intros H; inversion H; reflexivity.
  - destruct s as [|y s]; [discriminate|]. cbn [app].
    destruct (x =? y); [apply IH|discriminate].
Qed.

Lemma keyword_app (kw : string) (v v' : value) (s rest : pystr) :
  keyword kw v s = Some (v', []) ->
  keyword kw v (s ++ rest) = Some (v', rest).
Proof.
  unfold keyword. destruct (starts_with (str kw) s) as [r|] eqn:E;
    [|discriminate].
  intros H; inversion H; subst.
  erewrite starts_with_app by exact E. reflexivity.
Qed.

Lemma starts_with_app_inv (p s t r : pystr) (d : N) :
  starts_with p (s ++ d :: t) = Some r ->
  ~ In d p ->
  exists r', starts_with p s = Some r'.
Proof.
  revert s; induction p as [|x p IH]; intros s H Hd; cbn [starts_with].
  - destruct s; eauto.
  - destruct s as [|y s]; cbn [app starts_with] in H.
    + destruct (x =? d) eqn:E; [|discriminate].
      apply N.eqb_eq in E. subst. exfalso. apply Hd. left; reflexivity.
    + destruct (x =? y); [|discriminate].
      apply (IH s H). intros Hin. apply Hd. right; exact Hin.
Qed.

Lemma keyword_none_app (kw : string) (v : value) (s rest : pystr) :
  keyword kw v s = None ->
  delimited rest = true ->
  (forall d, In d [44; 93; 125] -> ~ In d (str kw)) ->
  keyword kw v (s ++ rest) = None.
Proof.
  unfold keyword. intros H Hr Hkw.
  destruct (starts_with (str kw) s) eqn:E; [discriminate|].
  destruct (delimited_cases _ Hr) as [ -> | (d & t & -> & Hd) ].
  - rewrite app_nil_r. now rewrite E.
  - destruct (starts_with (str kw) (s ++ d :: t)) as [r|] eqn:E';
      [|reflexivity].
    apply starts_with_app_inv in E'.
    + destruct E' as (r' & E'). congruence.
    + apply Hkw. cbn [In]. intuition.
Qed.

Lemma float_literal_reads (lit rest : pystr) (fuel : nat) :
  float_literal lit = true ->
  delimited rest = true ->
  parse_value (S fuel) (lit ++ rest) = Some (VFloat lit, rest).
Proof.
  unfold float_literal. intros H Hr.
  destruct (parse_value 1 lit) as [[v r]|] eqn:E; [|discriminate].
  destruct v; try discriminate. destruct r; [|discriminate].
  apply str_eqb_eq in H. subst lit0.
  destruct lit as [|c s1]; [discriminate|].
  cbn [parse_value] in E. cbn [app parse_value].
  change (c :: s1 ++ rest) with ((c :: s1) ++ rest).
  destruct (c =? 34); [repeat break_match_hyp E; discriminate|].
  destruct (c =? 123); [repeat break_match_hyp E; discriminate|].
  destruct (c =? 91); [repeat break_match_hyp E; discriminate|].
  destruct (c =? 110);
    [unfold keyword in E; repeat break_match_hyp E; discriminate|].
  destruct (c =? 116);
    [unfold keyword in E; repeat break_match_hyp E; discriminate|].
  destruct (c =? 102);
    [unfold keyword in E; repeat break_match_hyp E; discriminate|].
  destruct (c =? 78); [apply keyword_app; exact E|].
  destruct (c =? 73); [apply keyword_app; exact E|].
  destruct (keyword "-Infinity" (VFloat (str "-Infinity")) (c :: s1))
    as [[v r]|] eqn:Ek.
  - inversion E; subst.
    erewrite keyword_app by exact Ek. reflexivity.
  - rewrite keyword_none_app; [|exact Ek|exact Hr|].
    + apply match_number_app; assumption.
    + intros d Hd Hin. vm_compute in Hin. cbn [In] in Hd.
      destruct Hd as [<-|[<-|[<-|[]]]];
        repeat (destruct Hin as [Hin|Hin]; [discriminate Hin|]);
        exact Hin.
Qed.

(* ================================================================== *)
(** * Values: written and read back *)

Lemma parse_value_digit (f : nat) (c : N) (t : pystr) :
  is_ascii_digit c = true ->
  parse_value (S f) (c :: t) = match_number (c :: t).
Proof.
  intros Hc. cbn [parse_value].
  repeat match goal with
         | |- context [if ?x =? ?k then _ else _] =>
             destruct (x =? k) eqn:?;
             [match goal with
              | E : (_ =? _) = true |- _ =>
                  apply N.eqb_eq in E; subst; discriminate Hc
              end|]
         end.
  unfold keyword. change (str "-Infinity") with [45; 73; 110; 102; 105; 110; 105; 116; 121].
  cbn [starts_with].
  destruct (45 =? c) eqn:E; [|reflexivity].
  apply N.eqb_eq in E. subst. discriminate Hc.
Qed.

Lemma parse_value_minus (f : nat) (d : N) (t : pystr) :
  is_ascii_digit d = true ->
  parse_value (S f) (45 :: d :: t) = match_number (45 :: d :: t).
Proof.
  intros Hd. cbn [parse_value].
  replace (45 =? 34) with false by reflexivity.
  replace (45 =? 123) with false by reflexivity.
  replace (45 =? 91) with false by reflexivity.
  replace (45 =? 110) with false by reflexivity.
  replace (45 =? 116) with false by reflexivity.
  replace (45 =? 102) with false by reflexivity.
  replace (45 =? 78) with false by reflexivity.
  replace (45 =? 73) with false by reflexivity.
  unfold keyword. change (str "-Infinity") with [45; 73; 110; 102; 105; 110; 105; 116; 121].
  cbn [starts_with]. replace (45 =? 45) with true by reflexivity.
  destruct (73 =? d) eqn:E; [|reflexivity].
  apply N.eqb_eq in E. subst. discriminate Hd.
Qed.

Lemma reads_back_int (z : Z) : reads_back (VInt z).
Proof.
  exists 1%nat. intros [|f] rest Hf Hr; [lia|].
  cbn [json_dumps].
  pose proof (match_number_int_repr z rest Hr) as H.
  destruct z as [|p|p]; cbn [int_repr] in *.
  - rewrite <- H. apply (parse_value_digit f 48). reflexivity.
  - destruct (to_uint_head p) as (c & t & E & Hc). rewrite E in *.
    rewrite <- H. apply parse_value_digit.
    unfold in_range, is_ascii_digit in *.
    apply andb_true_iff in Hc. destruct Hc as (H1 & H2).
    apply N.leb_le in H1. unfold in_range.
    apply andb_true_iff. split; [apply N.leb_le; lia|exact H2].
  - destruct (to_uint_head p) as (c & t & E & Hc). rewrite E in *.
    rewrite <- H. apply parse_value_minus.
    unfold in_range, is_ascii_digit in *.
    apply andb_true_iff in Hc. destruct Hc as (H1 & H2).
    apply N.leb_le in H1. unfold in_range.
    apply andb_true_iff. split; [apply N.leb_le; lia|exact H2].
Qed.

Lemma reads_back_str (s : pystr) :
  scalar_str s = true -> reads_back (VStr s).
Proof.
  intros Hs. exists 1%nat. intros [|f] rest Hf Hr; [lia|].
  cbn [json_dumps]. unfold encode_string.
  cbn [app parse_value]. replace (34 =? 34) with true by reflexivity.
  rewrite <- app_assoc. cbn [app].
  now rewrite scanstring_encode.
Qed.

Lemma reads_back_float (lit : pystr) :
  float_literal lit = true -> reads_back (VFloat lit).
Proof.
  intros Hl. exists 1%nat. intros [|f] rest Hf Hr; [lia|].
  cbn [json_dumps]. now apply float_literal_reads.
Qed.

Lemma reads_back_const (v : value) :
  v = VNone \/ v = VBool true \/ v = VBool false -> reads_back v.
Proof.
  intros H. exists 1%nat. intros [|f] rest Hf Hr; [lia|].
  destruct H as [ -> | [ -> | -> ] ]; reflexivity.
Qed.

Lemma value_start_cases (c : N) :
  value_start c = false ->
  c = 32 \/ c = 9 \/ c = 10 \/ c = 13 \/ c = 93 \/ c = 125 \/ c = 44.
Proof.
  unfold value_start, is_json_ws.
  destruct (c =? 32) eqn:E1; [apply N.eqb_eq in E1; auto|].
  destruct (c =? 9) eqn:E2; [apply N.eqb_eq in E2; auto|].
  destruct (c =? 10) eqn:E3; [apply N.eqb_eq in E3; auto|].
  destruct (c =? 13) eqn:E4; [apply N.eqb_eq in E4; auto|].
  destruct (c =? 93) eqn:E5; [apply N.eqb_eq in E5; auto 10|].
  destruct (c =? 125) eqn:E6; [apply N.eqb_eq in E6; auto 10|].
  destruct (c =? 44) eqn:E7; [apply N.eqb_eq in E7; auto 10|].
  discriminate.
Qed.

Lemma value_start_digit (c : N) :
  is_ascii_digit c = true -> value_start c = true.
Proof.
  intros H. destruct (value_start c) eqn:E; [reflexivity|].
  destruct (value_start_cases c E)
    as [ -> | [ -> | [ -> | [ -> | [ -> | [ -> | -> ] ] ] ] ] ];
    discriminate H.
Qed.

Lemma skip_ws_start (c : N) (t : pystr) :
  value_start c = true -> skip_ws (c :: t) = c :: t.
Proof.
  unfold value_start. intros H. cbn [skip_ws].
  destruct (is_json_ws c); [discriminate H|reflexivity].
Qed.

Lemma dumps_head (v : value) :
  serialisable v = true ->
  exists c t, json_dumps v = c :: t /\ value_start c = true.
Proof.
  destruct v as [|b|z|lit|s|l|d]; cbn [serialisable json_dumps]; intros H.
  - do 2 eexists; split; reflexivity.
  - destruct b; do 2 eexists; split; reflexivity.
  - destruct z as [|p|p]; cbn [int_repr].
    + do 2 eexists; split; reflexivity.
    + destruct (to_uint_head p) as (c & t & -> & Hc).
      exists c, t. split; [reflexivity|]. apply value_start_digit.
      unfold in_range, is_ascii_digit in *.
      apply andb_true_iff in Hc. destruct Hc as (H1 & H2).
      apply N.leb_le in H1. unfold in_range.
      apply andb_true_iff. split; [apply N.leb_le; lia|exact H2].
    + do 2 eexists; split; reflexivity.
  - unfold float_literal in H.
    destruct lit as [|c s]; [discriminate H|].
    exists c, s. split; [reflexivity|].
    destruct (value_start c) eqn:E; [reflexivity|].
    destruct (value_start_cases c E)
      as [ -> | [ -> | [ -> | [ -> | [ -> | [ -> | -> ] ] ] ] ] ];
      discriminate H.
  - do 2 eexists; split; reflexivity.
  - do 2 eexists; split; reflexivity.
  - do 2 eexists; split; reflexivity.
Qed.

Lemma join_cons2 (sep p q : pystr) (ps : list pystr) :
  join sep (p :: q :: ps) = p ++ sep ++ join sep (q :: ps).
Proof. reflexivity. Qed.

Lemma join_head (sep : pystr) (p : pystr) (ps : list pystr) (c : N)
  (t : pystr) :
  p = c :: t -> exists t', join sep (p :: ps) = c :: t'.
Proof.
  intros ->. destruct ps as [|q ps]; cbn [join]; [eauto|].
  cbn [app]. eauto.
Qed.

(** The items of a list, after the opening bracket. *)
Lemma parse_items_dumps (l : list value) :
  l <> [] ->
  Forall reads_back l ->
  forallb serialisable l = true ->
  exists fuel, forall fuel' rest acc,
    (fuel <= fuel')%nat ->
    parse_items fuel' (join (str ", ") (map json_dumps l) ++ 93 :: rest) acc
    = Some (VList (acc ++ l), rest).
Proof.
  induction l as [|x l IH]; [congruence|]. intros _ Hall Hser.
  inversion Hall as [|? ? (fx & Hx) Hall']; subst.
  cbn [forallb] in Hser. apply andb_true_iff in Hser.
  destruct Hser as (Hsx & Hsl).
  destruct l as [|y l].
  - exists (S fx). intros [|f] rest acc Hf; [lia|].
    cbn [map join parse_items].
    rewrite (Hx f (93 :: rest)) by (lia || reflexivity).
    reflexivity.
  - destruct (IH ltac:(discriminate) Hall' Hsl) as (fl & Hl).
    exists (S (Nat.max fx fl)). intros [|f] rest acc Hf; [lia|].
    cbn [map]. rewrite join_cons2. rewrite <- !app_assoc.
    cbn [parse_items].
    rewrite (Hx f) by (lia || reflexivity).
    set (J := join (str ", ") (json_dumps y :: map json_dumps l)
              ++ 93 :: rest).
    replace (skip_ws (str ", " ++ J)) with (44 :: 32 :: J) by reflexivity.
    replace (44 =? 93) with false by reflexivity.
    replace (44 =? 44) with true by reflexivity.
    replace (skip_ws (32 :: J)) with (skip_ws J) by reflexivity.
    cbn [forallb] in Hsl. apply andb_true_iff in Hsl.
    destruct (dumps_head y (proj1 Hsl)) as (c & t & Ey & Hc).
    destruct (join_head (str ", ") (json_dumps y) (map json_dumps l) c t Ey)
      as (t' & Ej).
    assert (EJ : skip_ws J = J).
    { unfold J. rewrite Ej. cbn [app]. apply skip_ws_start, Hc. }
    rewrite EJ. unfold J.
    change (json_dumps y :: map json_dumps l)
      with (map json_dumps (y :: l)).
    rewrite Hl by lia.
    now rewrite <- app_assoc.
Qed.

Lemma dict_set_fresh (k : pystr) (x : value) (acc : dict) :
  dict_mem k acc = false -> dict_set k x acc = acc ++ [(k, x)].
Proof.
  unfold dict_mem. induction acc as [|[k' v'] acc IH]; cbn [dict_get dict_set app].
  - reflexivity.
  - destruct (str_eqb k k'); [discriminate|].
    intros H. now rewrite IH.
Qed.

Lemma dict_mem_snoc (k k' : pystr) (x : value) (acc : dict) :
  dict_mem k acc = false -> k <> k' ->
  dict_mem k (acc ++ [(k', x)]) = false.
Proof.
  unfold dict_mem. intros H Hne.
  induction acc as [|[k0 v0] acc IH]; cbn [dict_get app] in *.
  - apply str_eqb_neq in Hne. now rewrite Hne.
  - destruct (str_eqb k k0); [discriminate|]. now apply IH.
Qed.

Lemma dict_mem_in (k : pystr) (x : value) (d : dict) :
  In (k, x) d -> dict_mem k d = true.
Proof.
  unfold dict_mem. induction d as [|[k0 v0] d IH]; [intros []|].
  intros [E|H]; cbn [dict_get].
  - inversion E; subst. now rewrite str_eqb_refl.
  - destruct (str_eqb k k0); [reflexivity|]. now apply IH.
Qed.

Lemma dumps_pair_head (kv : pystr * value) :
  exists t, dumps_pair kv = 34 :: t.
Proof. destruct kv as [k x]. unfold dumps_pair, encode_string. cbn [app]. eauto. Qed.

(** The entries of a mapping, after the opening brace. *)
Lemma parse_pairs_dumps (d : dict) :
  d <> [] ->
  Forall (fun kv : pystr * value => reads_back (snd kv)) d ->
  forallb (fun kv : pystr * value =>
             let (k, x) := kv in scalar_str k && serialisable x) d = true ->
  keys_unique d = true ->
  exists fuel, forall fuel' rest acc,
    (fuel <= fuel')%nat ->
    (forall k x, In (k, x) d -> dict_mem k acc = false) ->
    parse_pairs fuel' (join (str ", ") (map dumps_pair d) ++ 125 :: rest) acc
    = Some (VDict (acc ++ d), rest).
Proof.
  induction d as [|[k x] d IH]; [congruence|]. intros _ Hall Hser Huniq.
  inversion Hall as [|? ? (fx & Hx) Hall']; subst. cbn [snd] in Hx.
  cbn [forallb] in Hser. apply andb_true_iff in Hser.
  destruct Hser as (Hkx & Hsd). apply andb_true_iff in Hkx.
  destruct Hkx as (Hk & Hsx).
  cbn [keys_unique] in Huniq. apply andb_true_iff in Huniq.
  destruct Huniq as (Hfresh & Huniq). apply negb_true_iff in Hfresh.
  destruct (dumps_head x Hsx) as (c & t & Ex & Hc).
  assert (Hval : forall f tail, (fx <= f)%nat -> delimited tail = true ->
            parse_value f (skip_ws (32 :: json_dumps x ++ tail))
            = Some (x, tail)).
  { intros f tail Hf Htail.
    replace (skip_ws (32 :: json_dumps x ++ tail))
      with (skip_ws (json_dumps x ++ tail)) by reflexivity.
    rewrite Ex. cbn [app]. rewrite skip_ws_start by exact Hc.
    change (c :: t ++ tail) with ((c :: t) ++ tail). rewrite <- Ex.
    now apply Hx. }
  destruct d as [|kv d].
  - exists (S fx). intros [|f] rest acc Hf Hacc; [lia|].
    cbn [map join]. unfold dumps_pair, encode_string.
    rewrite <- !app_assoc. cbn [app parse_pairs].
    replace (34 =? 34) with true by reflexivity.
    rewrite scanstring_encode by exact Hk.
    replace (skip_ws (str ": " ++ json_dumps x ++ 125 :: rest))
      with (58 :: 32 :: json_dumps x ++ 125 :: rest) by reflexivity.
    replace (58 =? 58) with true by reflexivity.
    rewrite Hval by (lia || reflexivity).
    replace (skip_ws (125 :: rest)) with (125 :: rest) by reflexivity.
    replace (125 =? 125) with true by reflexivity.
    rewrite dict_set_fresh; [reflexivity|].
    apply (Hacc k x). now left.
  - destruct (IH ltac:(discriminate) Hall' Hsd Huniq) as (fd & Hd).
    exists (S (Nat.max fx fd)). intros [|f] rest acc Hf Hacc; [lia|].
    cbn [map]. rewrite join_cons2.
    set (J := join (str ", ") (dumps_pair kv :: map dumps_pair d)).
    unfold dumps_pair at 1. unfold encode_string.
    rewrite <- !app_assoc. cbn [app parse_pairs].
    replace (34 =? 34) with true by reflexivity.
    rewrite scanstring_encode by exact Hk.
    replace (skip_ws (str ": " ++ json_dumps x ++ str ", " ++ J ++ 125 :: rest))
      with (58 :: 32 :: json_dumps x ++ str ", " ++ J ++ 125 :: rest)
      by reflexivity.
    replace (58 =? 58) with true by reflexivity.
    rewrite Hval by (lia || reflexivity).
    replace (skip_ws (str ", " ++ J ++ 125 :: rest))
      with (44 :: 32 :: J ++ 125 :: rest) by reflexivity.
    replace (44 =? 125) with false by reflexivity.
    replace (44 =? 44) with true by reflexivity.
    replace (skip_ws (32 :: J ++ 125 :: rest))
      with (skip_ws (J ++ 125 :: rest)) by reflexivity.
    destruct (dumps_pair_head kv) as (t0 & E0).
    destruct (join_head (str ", ") (dumps_pair kv) (map dumps_pair d) 34 t0 E0)
      as (t' & Ej).
    assert (EJ : skip_ws (J ++ 125 :: rest) = J ++ 125 :: rest).
    { unfold J. rewrite Ej. reflexivity. }
    rewrite EJ. unfold J.
    change (dumps_pair kv :: map dumps_pair d)
      with (map dumps_pair (kv :: d)).
    rewrite dict_set_fresh by (apply (Hacc k x); now left).
    rewrite Hd.
    + now rewrite <- app_assoc.
    + lia.
    + intros k' x' Hin. apply dict_mem_snoc.
      * apply (Hacc k' x'). now right.
      * intros ->. apply dict_mem_in in Hin. congruence.
Qed.

Lemma json_dumps_dict (d : dict) :
  json_dumps (VDict d)
  = [123] ++ join (str ", ") (map dumps_pair d) ++ [125].
Proof. reflexivity. Qed.

Lemma serialisable_reads_back (v : value) :
  serialisable v = true -> reads_back v.
Proof.
  induction v as [| b | z | lit | s | l IH | d IH] using value_nested_ind;
    intros H.
  - apply reads_back_const. now left.
  - apply reads_back_const. destruct b; auto.
  - apply reads_back_int.
  - now apply reads_back_float.
  - now apply reads_back_str.
  - cbn [serialisable] in H.
    assert (Hall : Forall reads_back l).
    { rewrite Forall_forall in *. intros x Hx. apply IH; [exact Hx|].
      rewrite forallb_forall in H. now apply H. }
    destruct l as [|x l].
    + exists 1%nat. intros [|f] rest Hf Hr; [lia|]. reflexivity.
    + destruct (parse_items_dumps (x :: l) ltac:(discriminate) Hall H)
        as (fl & Hl).
      exists (S fl). intros [|f] rest Hf Hr; [lia|].
      cbn [json_dumps]. rewrite <- !app_assoc. cbn [app parse_value].
      replace (91 =? 34) with false by reflexivity.
      replace (91 =? 123) with false by reflexivity.
      replace (91 =? 91) with true by reflexivity.
      cbn [forallb] in H. apply andb_true_iff in H.
      destruct (dumps_head x (proj1 H)) as (c & t & Ex & Hc).
      destruct (join_head (str ", ") (json_dumps x) (map json_dumps l) c t Ex)
        as (t' & Ej).
      change (map json_dumps (x :: l))
        with (json_dumps x :: map json_dumps l) in *.
      pose proof (Hl f rest [] ltac:(lia)) as Hp.
      rewrite Ej in *. cbn [app] in *. rewrite skip_ws_start by exact Hc.
      replace (c =? 93) with false.
      * exact Hp.
      * unfold value_start in Hc. destruct (c =? 93); [|reflexivity].
        rewrite andb_false_r in Hc. cbn in Hc.
        destruct (is_json_ws c); discriminate Hc.
  - cbn [serialisable] in H. apply andb_true_iff in H.
    destruct H as (Huniq & Hser).
    assert (Hall : Forall (fun kv : pystr * value => reads_back (snd kv)) d).
    { rewrite Forall_forall in *. intros [k x] Hx. cbn [snd].
      apply (IH (k, x) Hx). rewrite forallb_forall in Hser.
      specialize (Hser (k, x) Hx). cbn in Hser.
      now apply andb_true_iff in Hser. }
    destruct d as [|kv d].
    + exists 1%nat. intros [|f] rest Hf Hr; [lia|]. reflexivity.
    + destruct (parse_pairs_dumps (kv :: d) ltac:(discriminate) Hall Hser Huniq)
        as (fd & Hd).
      exists (S fd). intros [|f] rest Hf Hr; [lia|].
      rewrite json_dumps_dict. rewrite <- !app_assoc. cbn [app parse_value].
      replace (123 =? 34) with false by reflexivity.
      replace (123 =? 123) with true by reflexivity.
      destruct (dumps_pair_head kv) as (t0 & E0).
      destruct (join_head (str ", ") (dumps_pair kv) (map dumps_pair d) 34 t0 E0)
        as (t' & Ej).
      change (map dumps_pair (kv :: d))
        with (dumps_pair kv :: map dumps_pair d) in *.
      pose proof (Hd f rest [] ltac:(lia) ltac:(reflexivity)) as Hp.
      rewrite Ej in *. cbn [app] in *.
      replace (skip_ws (34 :: t' ++ 125 :: rest))
        with (34 :: t' ++ 125 :: rest) by reflexivity.
      replace (34 =? 125) with false by reflexivity.
      exact Hp.
Qed.

(** [json.loads(json.dumps(v))] is [v]. *)
Lemma loads_dumps (v : value) :
  serialisable v = true -> json_loads (json_dumps v) = Ok v.
Proof.
  intros H. destruct (serialisable_reads_back v H) as (fuel & Hf).
  destruct (dumps_head v H) as (c & t & E & Hc).
  unfold json_loads. rewrite E at 2. rewrite skip_ws_start by exact Hc.
  rewrite <- E.
  pose proof (Hf fuel [] (le_n _) eq_refl) as Hp. rewrite app_nil_r in Hp.
  assert (Hp' : parse_value (2 * List.length (json_dumps v) + 2) (json_dumps v)
                = Some (v, [])).
  { apply (proj1 (parse_enough fuel)); [lia|exact Hp]. }
  rewrite Hp'. reflexivity.
Qed.

Lemma json_dumps_dict_braces (d : dict) :
  exists b, json_dumps (VDict d) = 123 :: b ++ [125].
Proof. rewrite json_dumps_dict. cbn [app]. eauto. Qed.

(** A serialised object between words without braces is found and read
    back. *)
Lemma parsed_reply_dumps (a c : pystr) (d : dict) :
  ~ In 123 a -> ~ In 125 c -> serialisable (VDict d) = true ->
  re_search brace_pattern (a ++ json_dumps (VDict d) ++ c)
  = Some (json_dumps (VDict d))
  /\ parsed_reply (a ++ json_dumps (VDict d) ++ c) = Some d.
Proof.
  intros Ha Hc Hs.
  destruct (json_dumps_dict_braces d) as (b & Eb).
  assert (Hr : re_search brace_pattern (a ++ json_dumps (VDict d) ++ c)
               = Some (json_dumps (VDict d))).
  { rewrite Eb. cbn [app]. rewrite <- app_assoc. cbn [app].
    now apply re_search_brace_span. }
  split; [exact Hr|].
  unfold parsed_reply. rewrite Hr. now rewrite loads_dumps.
Qed.

Lemma parsed_reply_dumps_whole (d : dict) :
  serialisable (VDict d) = true ->
  parsed_reply (json_dumps (VDict d)) = Some d.
Proof.
  intros Hs.
  pose proof (parsed_reply_dumps [] [] d (fun H => H) (fun H => H) Hs) as (_ & H).
  cbn [app] in H. now rewrite app_nil_r in H.
Qed.

Lemma serialisable_singleton (k : pystr) (l : list value) :
  scalar_str k = true -> forallb serialisable l = true ->
  serialisable (VDict [(k, VList l)]) = true.
Proof.
  intros Hk Hl. cbn [serialisable keys_unique forallb].
  rewrite Hk, Hl. reflexivity.
Qed.

(* ================================================================== *)
(** * Insight extraction: the second pass *)

Lemma alternative_keys_other (k : pystr) (v : value) :
  first_alternative (alternative_keys k) [(k, v)] = None.
Proof.
  unfold alternative_keys.
  destruct (str_eqb k (str "contradictions")) eqn:E1;
    [apply str_eqb_eq in E1; subst k; reflexivity|].
  destruct (str_eqb k (str "enhancements")) eqn:E2;
    [apply str_eqb_eq in E2; subst k; reflexivity|].
  destruct (str_eqb k (str "connections")) eqn:E3;
    [apply str_eqb_eq in E3; subst k; reflexivity|].
  reflexivity.
Qed.

Lemma first_alternative_nonempty (keys : list pystr) (d : dict)
  (l : list value) :
  first_alternative keys d = Some l -> l <> [].
Proof.
  induction keys as [|k keys IH]; [discriminate|]. cbn [first_alternative].
  destruct (dict_get k d) as [[| | | | |[|x l']|]|]; try exact IH.
  intros H; inversion H; discriminate.
Qed.

Lemma first_list_entry_nonempty (d : dict) (l : list value) :
  first_list_entry d = Some l -> l <> [].
Proof.
  induction d as [|[k v] d IH]; [discriminate|]. cbn [first_list_entry].
  destruct v as [| | | | |[|x l']|]; try exact IH.
  intros H; inversion H; discriminate.
Qed.

Lemma fallback_list_nonempty (d : dict) (k : pystr) (l : list value) :
  fallback_list d k = Some l -> l <> [].
Proof.
  unfold fallback_list.
  destruct (first_alternative (alternative_keys k) d) eqn:E.
  - intros H; inversion H; subst. eapply first_alternative_nonempty; eauto.
  - apply first_list_entry_nonempty.
Qed.

(** The first call, when the expected key gives nothing but a list is
    found: the function calls itself on that list under the expected key. *)
Lemma insights_second_pass (depth : nat) (text k ty : pystr) (pj : dict)
  (l : list value) :
  parsed_reply text = Some pj ->
  expected_insights pj k ty = None ->
  fallback_list pj k = Some l ->
  extract_insights_from_response (S depth) text k ty
  = extract_insights_from_response depth
      (json_dumps (VDict [(k, VList l)])) k ty.
Proof.
  intros Hp He Hf. rewrite insights_unfold, Hp.
  unfold insights_from_json. rewrite He. unfold fallback_list in Hf.
  destruct (first_alternative (alternative_keys k) pj).
  - now inversion Hf.
  - now rewrite Hf.
Qed.

(** X8.  When the expected key gives nothing usable and the reply holds a
    non-empty list elsewhere (under an alternative key, or else under any
    key), the extraction serialises that list under the expected key, reads
    it back and validates it: from two nested calls on, the result is the
    chosen list with every mapping completed and every string turned into a
    record; nothing is lost in the serialisation.  The list is assumed to
    be one that [json.dumps] and [json.loads] carry unchanged. *)
Theorem reserialised_list_validated (depth : nat) (text k ty : pystr)
  (pj : dict) (l : list value) :
  parsed_reply text = Some pj ->
  expected_insights pj k ty = None ->
  fallback_list pj k = Some l ->
  scalar_str k = true ->
  forallb serialisable l = true ->
  validated_insights ty l <> [] ->
  extract_insights_from_response (S (S depth)) text k ty
  = Ok (validated_insights ty l).
Proof.
  intros Hp He Hf Hk Hl Hv.
  rewrite (insights_second_pass (S depth) text k ty pj l Hp He Hf).
  apply insights_expected with (parsed_json := [(k, VList l)]).
  - apply parsed_reply_dumps_whole. now apply serialisable_singleton.
  - cbn [dict_get]. now rewrite str_eqb_refl.
  - exact Hv.
Qed.

Lemma reserialised_list_validated_witness :
  extract_insights_from_response 2 wrapped_items_reply
    (str "enhancements") (str "enhancement")
  = Ok (validated_insights (str "enhancement")
          [VStr (str "a"); VStr (str "b")]).
Proof.
  apply (reserialised_list_validated 0 wrapped_items_reply
           (str "enhancements") (str "enhancement")
           [(str "items", VList [VStr (str "a"); VStr (str "b")])]
           [VStr (str "a"); VStr (str "b")]);
    vm_compute; (reflexivity || discriminate).
Defined.

Lemma unusable_list_loops (k ty : pystr) (l : list value) :
  scalar_str k = true -> forallb serialisable l = true ->
  l <> [] -> validated_insights ty l = [] ->
  forall depth,
    extract_insights_from_response depth
      (json_dumps (VDict [(k, VList l)])) k ty
    = Raise RecursionError.
Proof.
  intros Hk Hl Hne Hv. induction depth as [|depth IH]; [reflexivity|].
  rewrite (insights_second_pass depth _ k ty [(k, VList l)] l).
  - exact IH.
  - apply parsed_reply_dumps_whole. now apply serialisable_singleton.
  - unfold expected_insights. cbn [dict_get]. rewrite str_eqb_refl.
    now rewrite Hv.
  - unfold fallback_list. rewrite alternative_keys_other.
    cbn [first_list_entry]. destruct l; [congruence|reflexivity].
Qed.

(** X9.  When the list the extraction falls back on holds neither a
    mapping nor a string (numbers, say), the function calls itself on the
    same text for ever: it raises [RecursionError] whatever depth the
    interpreter allows, and the caller [find_*_async], which catches every
    exception, returns the empty list for such a reply. *)
Theorem unusable_list_recursion (text k ty : pystr) (pj : dict)
  (l : list value) :
  parsed_reply text = Some pj ->
  expected_insights pj k ty = None ->
  fallback_list pj k = Some l ->
  scalar_str k = true ->
  forallb serialisable l = true ->
  validated_insights ty l = [] ->
  (forall depth,
     extract_insights_from_response depth text k ty = Raise RecursionError)
  /\ (forall r, parts r = true -> text_of r = Ok text ->
        insights_of_reply (Ok r) k ty = []).
Proof.
  intros Hp He Hf Hk Hl Hv.
  assert (Hne : l <> []) by (eapply fallback_list_nonempty; eauto).
  assert (H : forall depth,
             extract_insights_from_response depth text k ty
             = Raise RecursionError).
  { intros [|depth]; [reflexivity|].
    rewrite (insights_second_pass depth text k ty pj l Hp He Hf).
    now apply unusable_list_loops. }
  split; [exact H|].
  intros r Hparts Htext. unfold insights_of_reply.
  rewrite Hparts, Htext. cbn [negb]. now rewrite H.
Qed.

Lemma unusable_list_recursion_witness :
  extract_insights_from_response recursion_limit numbers_reply
    (str "contradictions") (str "contradiction")
  = Raise RecursionError
  /\ insights_of_reply (Ok (Response true (Ok numbers_reply)))
       (str "contradictions") (str "contradiction") = [].
Proof.
  destruct (unusable_list_recursion numbers_reply
              (str "contradictions") (str "contradiction")
              [(str "contradictions", VList [VInt 1; VInt 2])]
              [VInt 1; VInt 2]
              ltac:(vm_compute; reflexivity) ltac:(vm_compute; reflexivity)
              ltac:(vm_compute; reflexivity) ltac:(vm_compute; reflexivity)
              ltac:(vm_compute; reflexivity) ltac:(vm_compute; reflexivity))
    as (H1 & H2).
  split; [apply H1|]. apply H2; reflexivity.
Defined.

(* ================================================================== *)
(** * The basic JSON extraction: properties *)

(** X10.  [extract_json_from_string] returns the object a text carries:
    for a mapping serialised by [json.dumps] and put between words without
    an opening brace before it and without a closing brace after it, the
    result is that mapping. *)
Theorem extract_json_round_trip (a c : pystr) (d : dict) :
  ~ In 123 a -> ~ In 125 c -> serialisable (VDict d) = true ->
  extract_json_from_string (a ++ json_dumps (VDict d) ++ c) = VDict d.
Proof.
  intros Ha Hc Hs. unfold extract_json_from_string.
  destruct (parsed_reply_dumps a c d Ha Hc Hs) as (Hr & _).
  rewrite Hr. now rewrite loads_dumps.
Qed.

Lemma extract_json_round_trip_witness :
  extract_json_from_string (dq "Here it is: {'a': [1, 'b']} done")
  = VDict [(str "a", VList [VInt 1; VStr (str "b")])].
Proof.
  apply (extract_json_round_trip (str "Here it is: ") (str " done")
           [(str "a", VList [VInt 1; VStr (str "b")])]).
  - vm_compute. intuition discriminate.
  - vm_compute. intuition discriminate.
  - vm_compute. reflexivity.
Defined.

Lemma no_brace_no_span (text : pystr) :
  ~ In 123 text -> forall a b c, text <> a ++ 123 :: b ++ 125 :: c.
Proof.
  intros H a b c ->. apply H. apply in_or_app. right. now left.
Qed.

(** X11.  [extract_json_from_string] always returns a mapping.  For a text
    without an opening brace followed by a closing brace it is the error
    object [No JSON object found in response.]; when the span from the
    first opening to the last closing brace is not JSON it is the error
    object [Failed to parse JSON from model response.]. *)
Theorem extract_json_mapping (text : pystr) :
  (exists d, extract_json_from_string text = VDict d)
  /\ ((forall a b c, text <> a ++ 123 :: b ++ 125 :: c) ->
      extract_json_from_string text
      = error_object "No JSON object found in response.")
  /\ (forall json_str,
        re_search brace_pattern text = Some json_str ->
        json_loads json_str = Raise JSONDecodeError ->
        extract_json_from_string text
        = error_object "Failed to parse JSON from model response.").
Proof.
  unfold extract_json_from_string. repeat split.
  - destruct (re_search brace_pattern text) as [js|] eqn:Es.
    + apply re_search_brace_head in Es. destruct Es as (rest & ->).
      destruct (json_loads (123 :: rest)) as [v|e] eqn:El.
      * apply loads_brace_dict in El. destruct El as (d & ->). eauto.
      * destruct e; unfold error_object; eauto.
    + unfold error_object; eauto.
  - intros H. now rewrite re_search_brace_none.
  - intros js Hs Hl. now rewrite Hs, Hl.
Qed.

Lemma extract_json_mapping_witness :
  extract_json_from_string (str "no object here")
  = error_object "No JSON object found in response."
  /\ extract_json_from_string (str "{oops}")
     = error_object "Failed to parse JSON from model response.".
Proof.
  split.
  - apply (proj1 (proj2 (extract_json_mapping (str "no object here")))).
    apply no_brace_no_span. vm_compute. intuition discriminate.
  - apply (proj2 (proj2 (extract_json_mapping (str "{oops}")))
             (str "{oops}")); vm_compute; reflexivity.
Defined.

(* ================================================================== *)
(** * The bounding box from indexing to retrieval *)

Lemma dict_get_setdefault_box (k : pystr) (v : value) (meta : dict) :
  k <> bounding_box ->
  dict_get bounding_box (setdefault k v meta) = dict_get bounding_box meta.
Proof. intros H. apply dict_get_setdefault_other. congruence. Qed.

(** X12.  The bounding box survives indexing and retrieval.  The indexing
    pipeline stores the box of a chunk as JSON text, or the text of an
    empty object when the chunk has no box or an empty one; the
    normalization of the retrieval decodes it: the record carries the box
    of the chunk again, or an empty mapping. *)
Theorem bounding_box_round_trip (chunk meta : dict) :
  (forall box, dict_get bounding_box chunk = Some box ->
     truthy box = true -> serialisable box = true) ->
  dict_get bounding_box meta = Some (index_bounding_box chunk) ->
  dict_get bounding_box (normalize_meta meta) = Some (chunk_box chunk).
Proof.
  intros Hs Hm. unfold normalize_meta, handle_bounding_box.
  rewrite !dict_get_setdefault_box by (vm_compute; discriminate).
  rewrite Hm. unfold index_bounding_box, chunk_box.
  destruct (dict_get bounding_box chunk) as [box|].
  - destruct (truthy box) eqn:Et.
    + rewrite loads_dumps by (now apply Hs). apply dict_get_set_same.
    + replace (json_loads (str "{}")) with (Ok (VDict [])) by reflexivity.
      apply dict_get_set_same.
  - replace (json_loads (str "{}")) with (Ok (VDict [])) by reflexivity.
    apply dict_get_set_same.
Qed.

Lemma bounding_box_round_trip_witness :
  dict_get bounding_box
    (normalize_meta
       [ (original_content, VStr (str "alpha"));
         (bounding_box, index_bounding_box example_chunk) ])
  = dict_get bounding_box example_chunk.
Proof.
  apply (bounding_box_round_trip example_chunk
           [ (original_content, VStr (str "alpha"));
             (bounding_box, index_bounding_box example_chunk) ]).
  - intros box H _. vm_compute in H. inversion H; subst.
    vm_compute. reflexivity.
  - reflexivity.
Defined.


(* ================================================================== *)
(** * Persona podcasts: running and sequencing *)

Lemma run_podcast_bind (A B : Type) (w : podcast_world) (m : podcast_io A)
  (f : A -> podcast_io B) :
  run_podcast w (podcast_bind m f) = run_podcast w (f (run_podcast w m)).
Proof. induction m; simpl; auto. Qed.

Lemma podcast_calls_bind (A B : Type) (w : podcast_world) (m : podcast_io A)
  (f : A -> podcast_io B) :
  podcast_calls w (podcast_bind m f)
  = podcast_calls w m ++ podcast_calls w (f (run_podcast w m)).
Proof.
  induction m; simpl; auto.
  - rewrite <- app_assoc. f_equal. auto.
  - f_equal. auto.
Qed.

Lemma extract_empty (persona : pystr) :
  extract_podcast_conversation_from_response [] persona
  = Ok (canned_conversation persona).
Proof. reflexivity. Qed.

Lemma fallback_script_canned (persona : pystr) :
  fallback_script persona = Ok (persona, canned_conversation persona).
Proof. reflexivity. Qed.

Lemma canned_conversation_length (persona : pystr) :
  List.length (canned_conversation persona) = 8%nat.
Proof.
  unfold canned_conversation, fallback_conversations.
  cbn [get_conversation].
  repeat match goal with
         | |- context [if ?b then _ else _] => destruct b; [reflexivity|]
         end.
  reflexivity.
Qed.

Lemma script_of_reply_shape (reply : result response) (persona : pystr) :
  script_of_reply reply persona
  = Ok (persona, script_conversation reply persona)
  /\ Nat.even (List.length (script_conversation reply persona)) = true
  /\ (4 <= List.length (script_conversation reply persona))%nat.
Proof.
  assert (F : forall r, r = fallback_script persona ->
            r = Ok (persona, match r with Ok (_, c) => c | Raise _ => [] end)
            /\ Nat.even (List.length
                 match r with Ok (_, c) => c | Raise _ => [] end) = true
            /\ (4 <= List.length
                  match r with Ok (_, c) => c | Raise _ => [] end)%nat).
  { intros r ->. rewrite fallback_script_canned.
    rewrite canned_conversation_length. repeat split. lia. }
  unfold script_conversation, script_of_reply.
  destruct reply as [r|e]; [|now apply F].
  destruct (negb (parts r)); [now apply F|].
  destruct (text_of r) as [text|e]; [|now apply F].
  destruct (negb (truthy (VStr (strip text)))
            || (List.length (strip text) <? 50)%nat); [now apply F|].
  destruct (podcast_parity (strip text) persona) as (c & -> & He & Hl).
  repeat split; assumption.
Qed.

Lemma unusable_reply_fallback (reply : result response) (persona : pystr) :
  unusable_reply reply = true ->
  script_conversation reply persona = canned_conversation persona.
Proof.
  unfold unusable_reply, script_conversation, script_of_reply.
  destruct reply as [r|e]; [|reflexivity].
  destruct (negb (parts r)); [reflexivity|]. cbn [orb].
  destruct (text_of r) as [text|e]; [|reflexivity].
  intros ->. now rewrite orb_true_r.
Qed.

Lemma run_gather_scripts (w : podcast_world) (selection : pystr)
  (context : list value) (styles : list (pystr * pystr)) :
  run_podcast w
    (gather
       (map (fun ps =>
               _generate_single_podcast_script selection (fst ps) (snd ps)
                 context) styles))
  = Ok (map (fun ps =>
               (fst ps,
                script_conversation
                  (generate_podcast_content w
                     (persona_prompt selection context ps)) (fst ps)))
          styles).
Proof.
  induction styles as [|ps styles IH]; [reflexivity|].
  cbn [map gather]. rewrite run_podcast_bind.
  cbn [_generate_single_podcast_script run_podcast].
  rewrite run_podcast_bind, IH. cbn [run_podcast].
  destruct (script_of_reply_shape
              (generate_podcast_content w
                 (PodcastPrompt (fst ps) (snd ps) selection context))
              (fst ps)) as (-> & _).
  reflexivity.
Qed.

Lemma calls_gather_scripts (w : podcast_world) (selection : pystr)
  (context : list value) (styles : list (pystr * pystr)) :
  podcast_calls w
    (gather
       (map (fun ps =>
               _generate_single_podcast_script selection (fst ps) (snd ps)
                 context) styles))
  = map (fun ps => CallGeneratePodcast (persona_prompt selection context ps))
      styles.
Proof.
  induction styles as [|ps styles IH]; [reflexivity|].
  cbn [map gather]. rewrite podcast_calls_bind.
  cbn [_generate_single_podcast_script podcast_calls run_podcast app].
  rewrite podcast_calls_bind, IH. cbn [podcast_calls].
  now rewrite app_nil_r.
Qed.

Lemma all_podcasts_styles (f : pystr * pystr -> list pystr) :
  all_podcasts (map (fun ps => (fst ps, f ps)) PERSONA_STYLES)
  = map (fun ps => (fst ps, conversation_value (f ps))) PERSONA_STYLES.
Proof. reflexivity. Qed.

Lemma dict_get_styles (g : pystr * pystr -> value) (persona style : pystr) :
  In (persona, style) PERSONA_STYLES ->
  dict_get persona (map (fun ps => (fst ps, g ps)) PERSONA_STYLES)
  = Some (g (persona, style)).
Proof.
  intros [E|[E|[E|[E|[]]]]]; inversion E; subst; reflexivity.
Qed.

(** What the podcast generation returns. *)
Lemma run_generate_persona_podcast (w : podcast_world) (selection : pystr) :
  run_podcast w (generate_persona_podcast_async selection)
  = Ok (map (fun ps =>
               (fst ps,
                conversation_value
                  match run (services w)
                          (retrieve_large_context_async selection) with
                  | [] => no_context_conversation
                  | m :: ms =>
                      script_conversation
                        (generate_podcast_content w
                           (persona_prompt selection (m :: ms) ps)) (fst ps)
                  end))
          PERSONA_STYLES).
Proof.
  unfold generate_persona_podcast_async. cbn [run_podcast].
  destruct (run (services w) (retrieve_large_context_async selection))
    as [|m ms].
  - reflexivity.
  - cbn [truthy negb]. rewrite run_podcast_bind, run_gather_scripts.
    cbn [run_podcast].
    now rewrite (all_podcasts_styles
                   (fun ps => script_conversation
                                (generate_podcast_content w
                                   (persona_prompt selection (m :: ms) ps))
                                (fst ps))).
Qed.

(* ================================================================== *)
(** * Persona podcasts: properties *)

(** X13.  The podcast generation never raises and always answers with
    exactly the four personas of [PERSONA_STYLES], in their order.  Every
    conversation is a list of strings of even length: the two placeholder
    lines when the retrieval found no context, at least four lines
    otherwise, whatever the generation model replied. *)
Theorem podcast_every_persona (w : podcast_world) (selection : pystr) :
  exists podcasts,
    run_podcast w (generate_persona_podcast_async selection) = Ok podcasts
    /\ map fst podcasts = personas
    /\ Forall
         (fun kv : pystr * value =>
            exists conversation,
              snd kv = conversation_value conversation
              /\ Nat.even (List.length conversation) = true
              /\ (match run (services w)
                           (retrieve_large_context_async selection) with
                  | [] => 2
                  | _ :: _ => 4
                  end <= List.length conversation)%nat)
         podcasts.
Proof.
  rewrite run_generate_persona_podcast. eexists. split; [reflexivity|].
  split; [now rewrite map_map|].
  apply Forall_forall. intros kv Hin. apply in_map_iff in Hin.
  destruct Hin as (ps & <- & _). cbn [snd]. eexists.
  split; [reflexivity|].
  destruct (run (services w) (retrieve_large_context_async selection))
    as [|m ms].
  - split; [reflexivity|cbn; lia].
  - destruct (script_of_reply_shape
                (generate_podcast_content w
                   (persona_prompt selection (m :: ms) ps)) (fst ps))
      as (_ & He & Hl).
    split; assumption.
Qed.

(** X14.  Without context no script is generated.  When the retrieval
    returns nothing, every persona gets the two placeholder lines and the
    only requests made are those of the retrieval; for a selection that is
    empty or shorter than three characters once stripped, no request is
    made at all. *)
Theorem podcast_without_context (w : podcast_world) (selection : pystr) :
  (run (services w) (retrieve_large_context_async selection) = [] ->
   run_podcast w (generate_persona_podcast_async selection)
   = Ok (map (fun persona =>
                (persona, conversation_value no_context_conversation))
           personas)
   /\ podcast_calls w (generate_persona_podcast_async selection)
      = map CallService
          (calls (services w) (retrieve_large_context_async selection)))
  /\ (selection = [] \/ (List.length (strip selection) < 3)%nat ->
      run_podcast w (generate_persona_podcast_async selection)
      = Ok (map (fun persona =>
                   (persona, conversation_value no_context_conversation))
              personas)
      /\ podcast_calls w (generate_persona_podcast_async selection) = []).
Proof.
  assert (A : run (services w) (retrieve_large_context_async selection) = [] ->
              run_podcast w (generate_persona_podcast_async selection)
              = Ok (map (fun persona =>
                           (persona,
                            conversation_value no_context_conversation))
                      personas)
              /\ podcast_calls w (generate_persona_podcast_async selection)
                 = map CallService
                     (calls (services w)
                        (retrieve_large_context_async selection))).
  { intros H. split.
    - rewrite run_generate_persona_podcast, H. reflexivity.
    - unfold generate_persona_podcast_async. cbn [podcast_calls].
      rewrite H. cbn [truthy negb podcast_calls]. apply app_nil_r. }
  split; [exact A|].
  intros H.
  assert (Hs : selection_too_short selection = true).
  { unfold selection_too_short. destruct H as [->|H]; [reflexivity|].
    apply Nat.ltb_lt in H. rewrite H. apply orb_true_r. }
  assert (Hr : retrieve_large_context_async selection = Ret []).
  { unfold retrieve_large_context_async. now rewrite Hs. }
  destruct A as (A1 & A2); [now rewrite Hr|].
  split; [exact A1|]. rewrite A2, Hr. reflexivity.
Qed.

Lemma podcast_without_context_witness :
  (run_podcast silent_world (generate_persona_podcast_async (str "quantum"))
   = Ok (map (fun persona =>
                (persona, conversation_value no_context_conversation))
           personas)
   /\ podcast_calls silent_world
        (generate_persona_podcast_async (str "quantum"))
      = [CallService (CallEmbed (str "quantum"))])
  /\ podcast_calls podcast_example_world
       (generate_persona_podcast_async (str "  a ")) = [].
Proof.
  split.
  - apply (proj1 (podcast_without_context silent_world (str "quantum"))).
    reflexivity.
  - apply (proj2 (podcast_without_context podcast_example_world (str "  a "))).
    right. vm_compute. lia.
Defined.

(** X15.  With context, the podcast generation makes the requests of the
    retrieval and then exactly four requests to the generation model: one
    per persona, in the order of [PERSONA_STYLES], each with the style
    guide of its persona, the same selection and the whole context. *)
Theorem podcast_requests (w : podcast_world) (selection : pystr)
  (m : value) (ms : list value) :
  run (services w) (retrieve_large_context_async selection) = m :: ms ->
  podcast_calls w (generate_persona_podcast_async selection)
  = map CallService
      (calls (services w) (retrieve_large_context_async selection))
    ++ map (fun ps =>
              CallGeneratePodcast (persona_prompt selection (m :: ms) ps))
         PERSONA_STYLES.
Proof.
  intros H. unfold generate_persona_podcast_async. cbn [podcast_calls].
  rewrite H. cbn [truthy negb].
  rewrite podcast_calls_bind, calls_gather_scripts. cbn [podcast_calls].
  now rewrite app_nil_r.
Qed.

Lemma podcast_requests_witness :
  podcast_calls podcast_example_world
    (generate_persona_podcast_async (str "quantum"))
  = map CallService
      (calls example_world (retrieve_large_context_async (str "quantum")))
    ++ map (fun ps =>
              CallGeneratePodcast
                (persona_prompt (str "quantum") [alpha_record] ps))
         PERSONA_STYLES.
Proof.
  apply (podcast_requests podcast_example_world (str "quantum")
           alpha_record []).
  vm_compute. reflexivity.
Defined.

(** X16.  A reply that cannot be used (the request raised, the reply was
    blocked, its text cannot be read, or it is shorter than 50 characters
    once stripped) costs only its own persona: that persona gets its canned
    conversation of eight lines, and every persona still gets the
    conversation of its own reply. *)
Theorem podcast_reply_degrades (w : podcast_world) (selection : pystr)
  (m : value) (ms : list value) (persona style_guide : pystr) :
  run (services w) (retrieve_large_context_async selection) = m :: ms ->
  In (persona, style_guide) PERSONA_STYLES ->
  unusable_reply
    (generate_podcast_content w
       (PodcastPrompt persona style_guide selection (m :: ms))) = true ->
  exists podcasts,
    run_podcast w (generate_persona_podcast_async selection) = Ok podcasts
    /\ dict_get persona podcasts
       = Some (conversation_value (canned_conversation persona))
    /\ List.length (canned_conversation persona) = 8%nat
    /\ forall persona' style_guide',
         In (persona', style_guide') PERSONA_STYLES ->
         dict_get persona' podcasts
         = Some (conversation_value
                   (script_conversation
                      (generate_podcast_content w
                         (PodcastPrompt persona' style_guide' selection
                            (m :: ms))) persona')).
Proof.
  intros Hr Hin Hu.
  set (g := fun ps : pystr * pystr =>
              conversation_value
                (script_conversation
                   (generate_podcast_content w
                      (persona_prompt selection (m :: ms) ps)) (fst ps))).
  exists (map (fun ps => (fst ps, g ps)) PERSONA_STYLES).
  split; [rewrite run_generate_persona_podcast, Hr; reflexivity|].
  split; [|split; [apply canned_conversation_length|]].
  - rewrite (dict_get_styles g persona style_guide Hin). unfold g.
    cbn [fst persona_prompt snd]. now rewrite unusable_reply_fallback.
  - intros persona' style' Hin'.
    now rewrite (dict_get_styles g persona' style' Hin').
Qed.

Lemma podcast_reply_degrades_witness :
  exists podcasts,
    run_podcast podcast_example_world
      (generate_persona_podcast_async (str "quantum")) = Ok podcasts
    /\ dict_get (str "investigator") podcasts
       = Some (conversation_value investigator_fallback).
Proof.
  assert (Hin : In (str "investigator", snd (nth 1 PERSONA_STYLES ([], [])))
                  PERSONA_STYLES) by (right; left; reflexivity).
  destruct (podcast_reply_degrades podcast_example_world (str "quantum")
              alpha_record [] (str "investigator") _
              ltac:(vm_compute; reflexivity) Hin
              ltac:(vm_compute; reflexivity))
    as (podcasts & Hrun & Hget & _).
  exists podcasts. split; [exact Hrun|exact Hget].
Defined.


(* ================================================================== *)
(** * The audio endpoint: properties *)

Lemma turns_from_texts (idx : nat) (data : list value) :
  map turn_text (turns_from idx data) = data.
Proof.
  revert idx; induction data as [|x data IH]; intros idx; [reflexivity|].
  cbn [turns_from map]. now rewrite IH.
Qed.

Lemma mod2_even (n : nat) : (n mod 2 =? 0)%nat = Nat.even n.
Proof.
  destruct (Nat.even n) eqn:E.
  - apply Nat.even_spec in E. destruct E as (q & ->).
    rewrite Nat.mul_comm, Nat.Div0.mod_mul. reflexivity.
  - assert (Ho : Nat.odd n = true)
      by (rewrite <- Nat.negb_even, E; reflexivity).
    apply Nat.odd_spec in Ho. destruct Ho as (q & ->).
    rewrite Nat.add_comm, Nat.mul_comm, Nat.Div0.mod_add. reflexivity.
Qed.

Lemma turns_from_unfold (idx : nat) (x : value) (data : list value) :
  turns_from idx (x :: data)
  = (if Nat.even idx then (str "Speaker", x, str "fable")
     else (str "Host", x, str "nova"))
    :: turns_from (S idx) data.
Proof.
  cbn [turns_from]. rewrite mod2_even. now destruct (Nat.even idx).
Qed.

Lemma turns_from_voices (data : list value) :
  forall idx,
    map turn_voice (turns_from idx data)
    = map (fun i => if Nat.even i then str "fable" else str "nova")
        (seq idx (List.length data))
    /\ map turn_speaker (turns_from idx data)
       = map (fun i => if Nat.even i then str "Speaker" else str "Host")
           (seq idx (List.length data)).
Proof.
  induction data as [|x data IH]; intros idx; [split; reflexivity|].
  rewrite turns_from_unfold. cbn [List.length seq map].
  destruct (IH (S idx)) as (-> & ->).
  destruct (Nat.even idx); split; reflexivity.
Qed.

Lemma voice_count_cons (voice : pystr) (t : turn) (turns : list turn) :
  voice_count voice (t :: turns)
  = ((if str_eqb (turn_voice t) voice then 1 else 0)
     + voice_count voice turns)%nat.
Proof.
  unfold voice_count. cbn [filter].
  now destruct (str_eqb (turn_voice t) voice).
Qed.

Lemma turns_from_counts (data : list value) :
  forall idx,
    voice_count (str "fable") (turns_from idx data)
    = (if Nat.even idx then Nat.div2 (S (List.length data))
       else Nat.div2 (List.length data))
    /\ voice_count (str "nova") (turns_from idx data)
       = (if Nat.even idx then Nat.div2 (List.length data)
          else Nat.div2 (S (List.length data))).
Proof.
  induction data as [|x data IH]; intros idx.
  - destruct (Nat.even idx); split; reflexivity.
  - rewrite turns_from_unfold, !voice_count_cons.
    destruct (IH (S idx)) as (-> & ->).
    rewrite Nat.even_succ, <- Nat.negb_even. cbn [List.length].
    destruct (Nat.even idx); split; reflexivity.
Qed.


(** X17.  The audio endpoint rejects an empty array.  For a non-empty one it
    makes one turn per item, in order and with the text unchanged; the
    turns at even index are spoken by [Speaker] with the voice [fable],
    those at odd index by [Host] with the voice [nova], so that [fable]
    speaks the larger half and [nova] the smaller. *)
Theorem endpoint_turns :
  endpoint_conversation (VList []) = None
  /\ forall x items,
       exists turns,
         endpoint_conversation (VList (x :: items)) = Some turns
         /\ map turn_text turns = x :: items
         /\ map turn_voice turns
            = map (fun i => if Nat.even i then str "fable" else str "nova")
                (seq 0 (List.length (x :: items)))
         /\ map turn_speaker turns
            = map (fun i => if Nat.even i then str "Speaker" else str "Host")
                (seq 0 (List.length (x :: items)))
         /\ voice_count (str "fable") turns
            = Nat.div2 (S (List.length (x :: items)))
         /\ voice_count (str "nova") turns
            = Nat.div2 (List.length (x :: items)).
Proof.
  split; [reflexivity|]. intros x items.
  exists (turns_from 0 (x :: items)).
  split; [reflexivity|]. split; [apply turns_from_texts|].
  destruct (turns_from_voices (x :: items) 0%nat) as (Hv & Hs).
  destruct (turns_from_counts (x :: items) 0%nat) as (Hf & Hn).
  repeat split; assumption.
Qed.

